(** * ScrubCam: the dispatch loop of [scrubcam.py]

    A shallow embedding of [main] of [scrubcam.py]: the capture loop, its
    per-frame decision step, the sighting log and the interrupt handler,
    together with the properties of the written specification that concern
    them.

    Effects are modelled as a chronological trace of calls made to the
    collaborators (camera, detector, socket handler, display, LoRa sender,
    file system, logger).  Exceptions, including the asynchronous
    [KeyboardInterrupt], are delivered by a fault schedule that says, for the
    n-th call attempted by the program, whether it raises instead of
    completing. *)

From Stdlib Require Import List String Ascii Bool Arith NArith ZArith QArith Lia Lqa.
From Stdlib Require Import Sorting.Permutation.
From Stdlib Require Import Floats.SpecFloat.
Import ListNotations.

Local Open Scope string_scope.
Local Open Scope list_scope.

(* ===================================================================== *)
(** ** Data model *)
(* ===================================================================== *)

(** One labeled box as [main] reads it: [lbox['class_name']] and
    [lbox['confidence']].  Other keys of the dictionary are never read by
    [main]; they travel with the value when it is handed to a collaborator. *)
Record lbox : Type := mk_lbox {
  class_name : string;
  confidence : spec_float
}.

(** The module-level constants read from the YAML file (lines 44-52).
    [CAMERA_RESOLUTION] and [CAMERA_ROTATION] are only used while the camera
    is set up, before the loop. *)
Record config : Type := mk_config {
  RECORD : bool;
  RECORD_CONF_THRESHOLD : spec_float;
  FILTER_CLASSES : list string;
  HEADLESS : bool;
  CONNECT_REMOTE_SERVER : bool;
  LORA_ON : bool
}.

(** A [datetime] value, as returned by [datetime.now()]. *)
Record datetime : Type := mk_datetime {
  year : N; month : N; day : N;
  hour : N; minute : N; second : N
}.

(** The values a [datetime] object can hold.  The year starts at 1000 here:
    below that the C library's [%Y] is not padded the same way on every
    platform. *)
Definition valid_datetime (d : datetime) : Prop :=
  (1000 <= year d <= 9999 /\ 1 <= month d <= 12 /\ 1 <= day d <= 31 /\
   hour d <= 23 /\ minute d <= 59 /\ second d <= 59)%N.

(** Exceptions that can interrupt the program. *)
Inductive exn : Type :=
| KeyboardInterrupt
| OtherError (name : string).

(** Calls to the outside world, in the vocabulary of the source. *)
Inductive event : Type :=
| ECapture                                   (* next item of camera.capture_continuous *)
| EHeartbeat                                 (* heartbeat sent by the socket handler *)
| EInfer                                     (* detector.infer(stream) *)
| EPrintReport                               (* detector.print_report() *)
| EDisplayUpdate (lboxes : list lbox)        (* display.update(lboxes) *)
| ESendImageAndBoxes (lboxes : list lbox)    (* socket_handler.send_image_and_boxes *)
| ESaveCurrentFrame (lboxes : list lbox)     (* detector.save_current_frame *)
| ELoraSend (to_send : string)               (* lora_sender.send(to_send) *)
| EOpen (path mode : string)                 (* open(path, mode) *)
| EWrite (text : string)                     (* seen_file.write(text) *)
| EClose                                     (* leaving the with block *)
| EStreamSeek                                (* stream.seek(0) *)
| EStreamTruncate                            (* stream.truncate() *)
| ELogWarning (msg : string)                 (* log.warning(msg) *)
| ESocketClose.                              (* socket_handler.close() *)

(** What the environment hands to one iteration of the loop: the clock read
    by the heartbeat check, the detector's [labeled_boxes] after inference,
    and the value of [datetime.now()] should the log be written. *)
Record cycle_input : Type := mk_cycle_input {
  heartbeat_clock : Q;
  labeled_boxes : list lbox;
  wall_clock : datetime
}.

(* ===================================================================== *)
(** ** Pure helpers: comparison, membership, formatting *)
(* ===================================================================== *)

(** Python's [x > y] on floats: false whenever either side is a NaN. *)
Definition float_gt (x y : spec_float) : bool :=
  match SFcompare x y with
  | Some Gt => true
  | _ => false
  end.

(** Python's [x == y] on floats. *)
Definition float_eq (x y : spec_float) : bool := SFeqb x y.

(** Python's [itm in lst] for a list of strings. *)
Definition py_in (itm : string) (lst : list string) : bool :=
  existsb (String.eqb itm) lst.

(** Python's [any(...)]. *)
Definition any (bs : list bool) : bool := existsb (fun b => b) bs.

(** The last decimal digit of [n], as a character. *)
Definition digit (n : N) : ascii := ascii_of_N (48 + n mod 10).

(** [%m], [%d], [%H], [%M], [%S]: two digits, zero padded. *)
Definition pad2 (n : N) : string :=
  String (digit (n / 10)) (String (digit n) EmptyString).

(** [%Y]: four digits. *)
Definition pad4 (n : N) : string :=
  String (digit (n / 1000)) (String (digit (n / 100)) (pad2 n)).

(** [d.strftime('%Y-%m-%d %H:%M:%S')]. *)
Definition strftime (d : datetime) : string :=
  pad4 (year d) ++ "-" ++ pad2 (month d) ++ "-" ++ pad2 (day d) ++ " " ++
  pad2 (hour d) ++ ":" ++ pad2 (minute d) ++ ":" ++ pad2 (second d).

Definition newline : string := String (ascii_of_N 10) EmptyString.

(** The f-string of line 109: [f'{tstamp} | {top_class}\n']. *)
Definition seen_line (tstamp top_class : string) : string :=
  tstamp ++ " | " ++ top_class ++ newline.

(** The f-string of line 102: [f"Top-1: {lboxes[0]['class_name']}"]. *)
Definition top1_message (top_class : string) : string :=
  "Top-1: " ++ top_class.

(* ===================================================================== *)
(** ** The effect monad *)
(* ===================================================================== *)

(** The world threaded through the program: the calls made so far, the
    number of calls attempted so far, and the socket handler's heartbeat
    clock. *)
Record world : Type := mk_world {
  trace : list event;
  steps : nat;
  last_heartbeat : Q
}.

(** A fault schedule: the exception, if any, raised by the n-th call. *)
Definition faults : Type := nat -> option exn.

Definition no_faults : faults := fun _ => None.

(** Exactly one exception, delivered at call number [k]. *)
Definition single_fault (k : nat) (x : exn) : faults :=
  fun n => if Nat.eqb n k then Some x else None.

Inductive outcome (A : Type) : Type :=
| Ok (a : A)
| Raise (x : exn).
Arguments Ok {A} a.
Arguments Raise {A} x.

Definition M (A : Type) : Type := faults -> world -> outcome A * world.

Definition ret {A : Type} (a : A) : M A := fun _ w => (Ok a, w).

Definition bind {A B : Type} (m : M A) (k : A -> M B) : M B :=
  fun f w =>
    match m f w with
    | (Ok a, w') => k a f w'
    | (Raise x, w') => (Raise x, w')
    end.

Notation "m ;; k" := (bind m (fun _ => k))
  (at level 61, right associativity).
Notation "x <- m ;; k" := (bind m (fun x => k))
  (at level 61, m at next level, right associativity).

Definition record_event (e : event) (w : world) : world :=
  mk_world (trace w ++ [e]) (steps w) (last_heartbeat w).

Definition tick (w : world) : world :=
  mk_world (trace w) (S (steps w)) (last_heartbeat w).

(** One call to a collaborator.  It either completes, and is recorded, or
    raises the exception scheduled for it. *)
Definition perform (e : event) : M unit :=
  fun f w =>
    match f (steps w) with
    | Some x => (Raise x, tick w)
    | None => (Ok tt, record_event e (tick w))
    end.

Definition when (b : bool) (m : M unit) : M unit :=
  if b then m else ret tt.

(** [with open(path, mode) as seen_file: body].  Once the file is open it
    is closed when the block is left, whether normally or by an exception,
    and the exception then goes on. *)
Definition with_open (path mode : string) (body : M unit) : M unit :=
  fun f w =>
    match perform (EOpen path mode) f w with
    | (Raise x, w1) => (Raise x, w1)
    | (Ok _, w1) =>
        let (r, w2) := body f w1 in (r, record_event EClose w2)
    end.

(** [try: body / except KeyboardInterrupt: handler]. *)
Definition try_except_KeyboardInterrupt (body handler : M unit) : M unit :=
  fun f w =>
    match body f w with
    | (Raise KeyboardInterrupt, w') => handler f w'
    | r => r
    end.

Definition get_last_heartbeat : M Q :=
  fun _ w => (Ok (last_heartbeat w), w).

Definition set_last_heartbeat (t : Q) : M unit :=
  fun _ w => (Ok tt, mk_world (trace w) (steps w) t).

(* ===================================================================== *)
(** ** The program *)
(* ===================================================================== *)

(** Modelled from the spec: [ClientSocketHandler.send_heartbeat_every_15s]
    lives in [scrubcam.networking], which is not part of the sources at hand.
    The specification describes its timer: it records the time of the last
    heartbeat, is due when at least 15 seconds have elapsed since, and on
    firing sends one heartbeat and takes the current time as the new
    baseline.  [now] is the clock as read by the check, in seconds. *)
Definition send_heartbeat_every_15s (now : Q) : M unit :=
  last <- get_last_heartbeat ;;
  if Qle_bool 15 (now - last)
  then perform EHeartbeat ;; set_last_heartbeat now
  else ret tt.

(** Lines 93-109: what one iteration does with the detections. *)
Definition decision_step (cfg : config) (lboxes : list lbox)
    (now : datetime) : M unit :=
  match lboxes with
  | [] => ret tt
  | top :: _ =>
      if RECORD cfg && float_gt (confidence top) (RECORD_CONF_THRESHOLD cfg)
      then
        let detected_classes := map class_name lboxes in
        when (any (map (fun itm => py_in itm (FILTER_CLASSES cfg))
                       detected_classes))
          (when (CONNECT_REMOTE_SERVER cfg)
             (perform (ESendImageAndBoxes lboxes)) ;;
             (* log.debug('Image sent') is below the configured level INFO *)
           perform (ESaveCurrentFrame lboxes) ;;
           when (LORA_ON cfg)
             (let to_send := top1_message (class_name top) in
              perform (ELoraSend to_send))) ;;
        with_open "what_was_seen.log" "a+"
          (let tstamp := strftime now in
           let top_class := class_name top in
           perform (EWrite (seen_line tstamp top_class)))
      else ret tt
  end.

(** Lines 83-112: the body of the [for] loop, from the moment the camera
    yields a frame. *)
Definition cycle (cfg : config) (inp : cycle_input) : M unit :=
  perform ECapture ;;
  when (CONNECT_REMOTE_SERVER cfg)
    (send_heartbeat_every_15s (heartbeat_clock inp)) ;;
  perform EInfer ;;
  perform EPrintReport ;;
  let lboxes := labeled_boxes inp in
  when (negb (HEADLESS cfg)) (perform (EDisplayUpdate lboxes)) ;;
  decision_step cfg lboxes (wall_clock inp) ;;
  perform EStreamSeek ;;
  perform EStreamTruncate.

(** The [for] loop over the frames the camera yields.  The camera's sequence
    is endless; [inputs] is the finite part of it under consideration. *)
Fixpoint capture_loop (cfg : config) (inputs : list cycle_input) : M unit :=
  match inputs with
  | [] => ret tt
  | inp :: rest => cycle cfg inp ;; capture_loop cfg rest
  end.

(** Lines 82-116: the [try] statement of [main]. *)
Definition main (cfg : config) (inputs : list cycle_input) : M unit :=
  try_except_KeyboardInterrupt
    (capture_loop cfg inputs)
    (perform (ELogWarning "KeyboardInterrupt") ;;
     when (CONNECT_REMOTE_SERVER cfg) (perform ESocketClose)).

(** How the process ends once [main] is left. *)
Inductive termination : Type :=
| ExitCode (code : Z)
| UnhandledException (x : exn).

Definition process_end (r : outcome unit) : termination :=
  match r with
  | Ok _ => ExitCode 0
  | Raise x => UnhandledException x
  end.

(* ===================================================================== *)
(** ** The three-verdict policy of the specification *)
(* ===================================================================== *)

Inductive verdict : Type := NoAction | LogOnly | LogAndDispatch.

Definition top_class_of (lboxes : list lbox) : string :=
  match lboxes with
  | [] => EmptyString
  | top :: _ => class_name top
  end.

(** The recording condition: the sequence is non-empty, recording is
    enabled and the top confidence is strictly above the threshold. *)
Definition recording_condition (cfg : config) (lboxes : list lbox) : bool :=
  match lboxes with
  | [] => false
  | top :: _ =>
      RECORD cfg && float_gt (confidence top) (RECORD_CONF_THRESHOLD cfg)
  end.

(** Some detected class name is in the allow-list. *)
Definition filter_match (cfg : config) (lboxes : list lbox) : bool :=
  existsb (fun d => py_in (class_name d) (FILTER_CLASSES cfg)) lboxes.

(** The reference policy, written after the specification's description of
    the three verdicts. *)
Definition reference_policy (cfg : config) (lboxes : list lbox) : verdict :=
  match lboxes with
  | [] => NoAction
  | top :: _ =>
      if negb (RECORD cfg) then NoAction
      else if negb (float_gt (confidence top) (RECORD_CONF_THRESHOLD cfg))
      then NoAction
      else if filter_match cfg lboxes then LogAndDispatch
      else LogOnly
  end.

(** The side effects the specification attaches to each verdict, listed in
    the order in which the specification names them. *)
Definition verdict_effects (cfg : config) (lboxes : list lbox)
    (now : datetime) (v : verdict) : list event :=
  let line := seen_line (strftime now) (top_class_of lboxes) in
  match v with
  | NoAction => []
  | LogOnly => [EWrite line]
  | LogAndDispatch =>
      [EWrite line; ESaveCurrentFrame lboxes] ++
      (if CONNECT_REMOTE_SERVER cfg then [ESendImageAndBoxes lboxes] else []) ++
      (if LORA_ON cfg then [ELoraSend (top1_message (top_class_of lboxes))]
       else [])
  end.

Definition is_log_line (e : event) : bool :=
  match e with EWrite _ => true | _ => false end.
Definition is_persist (e : event) : bool :=
  match e with ESaveCurrentFrame _ => true | _ => false end.
Definition is_network_send (e : event) : bool :=
  match e with ESendImageAndBoxes _ => true | _ => false end.
Definition is_radio_send (e : event) : bool :=
  match e with ELoraSend _ => true | _ => false end.
Definition is_file_event (e : event) : bool :=
  match e with EOpen _ _ | EWrite _ | EClose => true | _ => false end.
Definition is_capture (e : event) : bool :=
  match e with ECapture => true | _ => false end.
Definition is_heartbeat (e : event) : bool :=
  match e with EHeartbeat => true | _ => false end.
Definition is_shutdown_event (e : event) : bool :=
  match e with ELogWarning _ | ESocketClose => true | _ => false end.

(** The four kinds of side effect the policy is about. *)
Definition observable (e : event) : bool :=
  is_log_line e || is_persist e || is_network_send e || is_radio_send e.

(** Some event satisfying [p] is issued before some event satisfying [q]. *)
Fixpoint occurs_before (p q : event -> bool) (tr : list event) : bool :=
  match tr with
  | [] => false
  | e :: rest => (p e && existsb q rest) || occurs_before p q rest
  end.

(** The contents of the sighting log after the calls of a trace, starting
    from [contents]: in mode [a+] every write goes to the end of the file. *)
Fixpoint log_contents (contents : string) (tr : list event) : string :=
  match tr with
  | [] => contents
  | EWrite text :: rest => log_contents (contents ++ text) rest
  | _ :: rest => log_contents contents rest
  end.

(** A string of the shape [dddd-dd-dd dd:dd:dd]. *)
Definition is_digit (c : ascii) : bool :=
  let n := N_of_ascii c in (48 <=? n)%N && (n <=? 57)%N.

Fixpoint matches_shape (shape : list (ascii -> bool)) (s : string) : bool :=
  match shape, s with
  | [], EmptyString => true
  | p :: shape', String c s' => p c && matches_shape shape' s'
  | _, _ => false
  end.

Definition is_char (c : ascii) : ascii -> bool := Ascii.eqb c.

Definition timestamp_shape : list (ascii -> bool) :=
  [is_digit; is_digit; is_digit; is_digit; is_char "-";
   is_digit; is_digit; is_char "-"; is_digit; is_digit; is_char " ";
   is_digit; is_digit; is_char ":"; is_digit; is_digit; is_char ":";
   is_digit; is_digit]%char.

(** The events of a fault-free decision step, spelled out. *)
Definition dispatch_events (cfg : config) (lboxes : list lbox) : list event :=
  (if CONNECT_REMOTE_SERVER cfg then [ESendImageAndBoxes lboxes] else []) ++
  [ESaveCurrentFrame lboxes] ++
  (if LORA_ON cfg then [ELoraSend (top1_message (top_class_of lboxes))]
   else []).

Definition log_events (lboxes : list lbox) (now : datetime) : list event :=
  [EOpen "what_was_seen.log" "a+";
   EWrite (seen_line (strftime now) (top_class_of lboxes));
   EClose].

Definition decision_events (cfg : config) (lboxes : list lbox)
    (now : datetime) : list event :=
  if recording_condition cfg lboxes
  then (if filter_match cfg lboxes then dispatch_events cfg lboxes else []) ++
       log_events lboxes now
  else [].

(** Sample data: the configuration and detections of the specification's
    examples.  0.6, 0.8, 0.3 and 0.9 as binary64 values. *)
Definition conf_0_6 : spec_float := S754_finite false 5404319552844595 (-53).
Definition conf_0_8 : spec_float := S754_finite false 7205759403792794 (-53).
Definition conf_0_3 : spec_float := S754_finite false 5404319552844595 (-54).
Definition conf_0_9 : spec_float := S754_finite false 8106479329266893 (-53).

Definition example_config : config :=
  mk_config true conf_0_6 ["deer"; "fox"] true true true.

Definition deer_and_bird : list lbox :=
  [mk_lbox "deer" conf_0_8; mk_lbox "bird" conf_0_3].

Definition bird_only : list lbox := [mk_lbox "bird" conf_0_9].

Definition bird_then_deer : list lbox :=
  [mk_lbox "bird" conf_0_9; mk_lbox "deer" conf_0_3].

Definition example_now : datetime := mk_datetime 2021 6 15 7 4 59.

Definition initial_world : world := mk_world [] 0 0.

(** Three frames for the heartbeat: the clock reads 3 s and 14.5 s after the
    last heartbeat, and then, after an inference that took 21.5 s, 36 s. *)
Definition early_inputs : list cycle_input :=
  [mk_cycle_input 3 [] example_now;
   mk_cycle_input (29 # 2) bird_only example_now].

Definition late_input : cycle_input :=
  mk_cycle_input 36 deer_and_bird example_now.

(** Reading a timestamp back: the number a run of decimal digits denotes,
    and the fields of a string laid out as [YYYY-MM-DD HH:MM:SS]. *)
Definition digit_value (c : ascii) : N := N_of_ascii c - 48.

Fixpoint decimal_value (s : string) (acc : N) : N :=
  match s with
  | EmptyString => acc
  | String c s' => decimal_value s' (10 * acc + digit_value c)
  end.

Definition read_timestamp (s : string) : datetime :=
  mk_datetime (decimal_value (substring 0 4 s) 0)
              (decimal_value (substring 5 2 s) 0)
              (decimal_value (substring 8 2 s) 0)
              (decimal_value (substring 11 2 s) 0)
              (decimal_value (substring 14 2 s) 0)
              (decimal_value (substring 17 2 s) 0).

(** The order of a dispatching cycle as the specification's list of
    testable properties words it: log entry, then persisted frame, then
    network send when connected, then radio message when enabled. *)
Definition log_first_order (cfg : config) (tr : list event) : bool :=
  occurs_before is_log_line is_persist tr &&
  (if CONNECT_REMOTE_SERVER cfg
   then occurs_before is_persist is_network_send tr else true) &&
  (if LORA_ON cfg
   then occurs_before is_persist is_radio_send tr else true) &&
  (if CONNECT_REMOTE_SERVER cfg && LORA_ON cfg
   then occurs_before is_network_send is_radio_send tr else true).

(** Whether the heartbeat is due: at least 15 seconds since the last one. *)
Definition heartbeat_due (last now : Q) : bool := Qle_bool 15 (now - last).

(** The events of a fault-free cycle around the decision step. *)
Definition heartbeat_events (cfg : config) (last now : Q) : list event :=
  if CONNECT_REMOTE_SERVER cfg && heartbeat_due last now
  then [EHeartbeat] else [].

Definition next_heartbeat (cfg : config) (last now : Q) : Q :=
  if CONNECT_REMOTE_SERVER cfg && heartbeat_due last now then now else last.

Definition inference_events (cfg : config) (inp : cycle_input) : list event :=
  [EInfer; EPrintReport] ++
  (if negb (HEADLESS cfg) then [EDisplayUpdate (labeled_boxes inp)] else []).

Definition example_input : cycle_input :=
  mk_cycle_input 20 deer_and_bird example_now.

(** No call of the interrupt handler has been made so far. *)
Definition no_shutdown (tr : list event) : bool :=
  negb (existsb is_shutdown_event tr).

(** How a computation behaves when the only fault is [x] at call number
    [k], started at or before that call with the handler not yet run: either
    it completes without reaching call [k], or it raises [x] right at call
    [k]; in both cases it makes none of the handler's calls. *)
Definition interruptible (k : nat) (x : exn) (m : M unit) : Prop :=
  forall w,
    (steps w <= k)%nat -> no_shutdown (trace w) = true ->
    match m (single_fault k x) w with
    | (Ok _, w') =>
        (steps w <= steps w' <= k)%nat /\ no_shutdown (trace w') = true
    | (Raise y, w') =>
        y = x /\ steps w' = S k /\ no_shutdown (trace w') = true
    end.

(* ===================================================================== *)
(** ** What a call may be, given the configuration and the frame *)
(* ===================================================================== *)

(** The calls one iteration may make for the frame [inp], with what the
    source requires for each: the flag that guards it, its argument, and for
    the recording calls the two tests of lines 93-96. *)
Definition cycle_allows (cfg : config) (inp : cycle_input) (e : event) : Prop :=
  let lboxes := labeled_boxes inp in
  match e with
  | ECapture | EInfer | EPrintReport | EStreamSeek | EStreamTruncate => True
  | EHeartbeat => CONNECT_REMOTE_SERVER cfg = true
  | EDisplayUpdate l => HEADLESS cfg = false /\ l = lboxes
  | ESendImageAndBoxes l =>
      CONNECT_REMOTE_SERVER cfg = true /\ l = lboxes /\
      recording_condition cfg lboxes = true /\ filter_match cfg lboxes = true
  | ESaveCurrentFrame l =>
      l = lboxes /\
      recording_condition cfg lboxes = true /\ filter_match cfg lboxes = true
  | ELoraSend to_send =>
      LORA_ON cfg = true /\ to_send = top1_message (top_class_of lboxes) /\
      recording_condition cfg lboxes = true /\ filter_match cfg lboxes = true
  | EOpen path mode =>
      path = "what_was_seen.log" /\ mode = "a+" /\
      recording_condition cfg lboxes = true
  | EWrite text =>
      text = seen_line (strftime (wall_clock inp)) (top_class_of lboxes) /\
      recording_condition cfg lboxes = true
  | EClose => recording_condition cfg lboxes = true
  | ELogWarning _ | ESocketClose => False
  end.

(** The calls the loop may make over the frames [inputs]. *)
Definition loop_allows (cfg : config) (inputs : list cycle_input)
    (e : event) : Prop :=
  exists inp, In inp inputs /\ cycle_allows cfg inp e.

(** The calls the [try] statement may make: those of the loop and the two
    of the handler. *)
Definition main_allows (cfg : config) (inputs : list cycle_input)
    (e : event) : Prop :=
  loop_allows cfg inputs e \/
  e = ELogWarning "KeyboardInterrupt" \/
  (e = ESocketClose /\ CONNECT_REMOTE_SERVER cfg = true).

(** Files opened and not yet closed along a trace. *)
Fixpoint open_files (tr : list event) : Z :=
  match tr with
  | [] => 0
  | EOpen _ _ :: rest => 1 + open_files rest
  | EClose :: rest => open_files rest - 1
  | _ :: rest => open_files rest
  end.

Definition is_display_update (e : event) : bool :=
  match e with EDisplayUpdate _ => true | _ => false end.

Definition is_inference (e : event) : bool :=
  match e with EInfer => true | _ => false end.

Definition is_socket_call (e : event) : bool :=
  match e with
  | EHeartbeat | ESendImageAndBoxes _ | ESocketClose => true
  | _ => false
  end.

Definition is_nan (x : spec_float) : bool :=
  match x with S754_nan => true | _ => false end.

(** The line a frame contributes to the sighting log, if any. *)
Definition cycle_line (cfg : config) (inp : cycle_input) : string :=
  if recording_condition cfg (labeled_boxes inp)
  then seen_line (strftime (wall_clock inp)) (top_class_of (labeled_boxes inp))
  else EmptyString.

Fixpoint join (lines : list string) : string :=
  match lines with
  | [] => EmptyString
  | l :: rest => l ++ join rest
  end.

(* ===================================================================== *)
(** ** Loading the configuration (lines 41-52) *)
(* ===================================================================== *)

(** Values a YAML document loads to, as far as the program handles them. *)
Inductive pyval : Type :=
| PyNone
| PyBool (b : bool)
| PyInt (z : Z)
| PyFloat (x : spec_float)
| PyStr (s : string)
| PyList (items : list pyval).

(** The dictionary [configs], through the one operation the module uses on
    it: lookup by key. *)
Definition pydict : Type := string -> option pyval.

Inductive load_result (A : Type) : Type :=
| Loaded (a : A)
| KeyError (key : string).
Arguments Loaded {A} a.
Arguments KeyError {A} key.

(** [configs[key]]. *)
Definition getitem (configs : pydict) (key : string) : load_result pyval :=
  match configs key with
  | Some v => Loaded v
  | None => KeyError key
  end.

Definition load_bind {A B : Type} (r : load_result A)
    (k : A -> load_result B) : load_result B :=
  match r with
  | Loaded a => k a
  | KeyError key => KeyError key
  end.

(** The eight module-level constants, as loaded. *)
Record constants : Type := mk_constants {
  const_RECORD : pyval;
  const_RECORD_CONF_THRESHOLD : pyval;
  const_CAMERA_RESOLUTION : pyval;
  const_CAMERA_ROTATION : pyval;
  const_FILTER_CLASSES : pyval;
  const_HEADLESS : pyval;
  const_CONNECT_REMOTE_SERVER : pyval;
  const_LORA_ON : pyval
}.

(** The keys in the order in which lines 44-52 read them. *)
Definition required_keys : list string :=
  ["RECORD"; "RECORD_CONF_THRESHOLD"; "CAMERA_RESOLUTION"; "CAMERA_ROTATION";
   "FILTER_CLASSES"; "HEADLESS"; "CONNECT_REMOTE_SERVER"; "LORA_ON"].

(** Lines 44-52. *)
Definition load_constants (configs : pydict) : load_result constants :=
  load_bind (getitem configs "RECORD") (fun record =>
  load_bind (getitem configs "RECORD_CONF_THRESHOLD") (fun threshold =>
  load_bind (getitem configs "CAMERA_RESOLUTION") (fun resolution =>
  load_bind (getitem configs "CAMERA_ROTATION") (fun rotation =>
  load_bind (getitem configs "FILTER_CLASSES") (fun filter_classes =>
  load_bind (getitem configs "HEADLESS") (fun headless =>
  load_bind (getitem configs "CONNECT_REMOTE_SERVER") (fun connect =>
  load_bind (getitem configs "LORA_ON") (fun lora_on =>
  Loaded (mk_constants record threshold resolution rotation filter_classes
            headless connect lora_on))))))))).

(** The first key of [keys] that [configs] lacks. *)
Fixpoint first_missing (configs : pydict) (keys : list string) : option string :=
  match keys with
  | [] => None
  | k :: rest =>
      match configs k with
      | Some _ => first_missing configs rest
      | None => Some k
      end
  end.

(** A dictionary given by its items; a later item for a key replaces an
    earlier one. *)
Fixpoint dict_of_items (items : list (string * pyval)) : pydict :=
  match items with
  | [] => fun _ => None
  | (k, v) :: rest =>
      fun key =>
        match dict_of_items rest key with
        | Some v' => Some v'
        | None => if String.eqb key k then Some v else None
        end
  end.

(** The example configuration as a dictionary, with one key too many. *)
Definition example_items : list (string * pyval) :=
  [("RECORD", PyBool true);
   ("RECORD_CONF_THRESHOLD", PyFloat conf_0_6);
   ("CAMERA_RESOLUTION", PyList [PyInt 1280; PyInt 720]);
   ("CAMERA_ROTATION", PyInt 0);
   ("FILTER_CLASSES", PyList [PyStr "deer"; PyStr "fox"]);
   ("HEADLESS", PyBool true);
   ("CONNECT_REMOTE_SERVER", PyBool true);
   ("LORA_ON", PyBool true);
   ("REMOTE_SERVER_IP", PyStr "192.168.1.2")].

(* ===================================================================== *)
(** ** Setting up the collaborators (lines 59-80) *)
(* ===================================================================== *)

(** The calls made before the loop is entered. *)
Inductive setup_event : Type :=
| ELoRaSenderInit                       (* LoRaSender() *)
| ELogInfo (msg : string)               (* log.info(msg) *)
| EDetectorInit                         (* ObjectDetectionSystem(configs) *)
| EStreamInit                           (* io.BytesIO() *)
| ECameraInit                           (* picamera.PiCamera() *)
| ESetRotation (rotation : pyval)       (* camera.rotation = ... *)
| ESetResolution (resolution : pyval)   (* camera.resolution = ... *)
| ESocketHandlerInit                    (* ClientSocketHandler(configs) *)
| ESendHostConfigs (filter_classes : list string) (cont : bool)
                                        (* socket_handler.send_host_configs *)
| EStateInit (n : Z)                    (* State(4) *)
| EDisplayInit.                         (* Display(configs, camera, state) *)

(** Everything [main] reads from the module: the constants the loop uses,
    the two camera settings and the command line's [--continue] flag. *)
Record settings : Type := mk_settings {
  loop_config : config;
  CAMERA_RESOLUTION : pyval;
  CAMERA_ROTATION : pyval;
  CONTINUE_RUN : bool
}.

Record setup_world : Type := mk_setup_world {
  setup_trace : list setup_event;
  setup_steps : nat
}.

(** Set-up code runs in the same discipline as the loop: the fault schedule
    decides for each call whether it completes or raises. *)
Definition SM (A : Type) : Type :=
  faults -> setup_world -> outcome A * setup_world.

Definition setup_ret {A : Type} (a : A) : SM A := fun _ sw => (Ok a, sw).

Definition setup_bind {A B : Type} (m : SM A) (k : A -> SM B) : SM B :=
  fun f sw =>
    match m f sw with
    | (Ok a, sw') => k a f sw'
    | (Raise x, sw') => (Raise x, sw')
    end.

Notation "m >>> k" := (setup_bind m (fun _ => k))
  (at level 62, right associativity).

Definition setup_call (e : setup_event) : SM unit :=
  fun f sw =>
    match f (setup_steps sw) with
    | Some x => (Raise x, mk_setup_world (setup_trace sw) (S (setup_steps sw)))
    | None =>
        (Ok tt, mk_setup_world (setup_trace sw ++ [e]) (S (setup_steps sw)))
    end.

Definition lora_disabled_msg : string :=
  "LoRa is ***DISABLED***" ++ newline ++ newline.

Definition server_disabled_msg : string :=
  "Connecting to ScrubDash server is ***DISABLED***" ++ newline ++ newline.

(** Lines 59-80. *)
Definition main_setup (st : settings) : SM unit :=
  let cfg := loop_config st in
  (if LORA_ON cfg
   then setup_call ELoRaSenderInit
   else setup_call (ELogInfo lora_disabled_msg)) >>>
  setup_call EDetectorInit >>>
  setup_call EStreamInit >>>
  setup_call ECameraInit >>>
  setup_call (ESetRotation (CAMERA_ROTATION st)) >>>
  setup_call (ESetResolution (CAMERA_RESOLUTION st)) >>>
  (if CONNECT_REMOTE_SERVER cfg
   then setup_call (ELogInfo "Connecting to server enabled") >>>
        setup_call ESocketHandlerInit >>>
        setup_call (ESendHostConfigs (FILTER_CLASSES cfg) (CONTINUE_RUN st))
   else setup_call (ELogInfo server_disabled_msg)) >>>
  (if negb (HEADLESS cfg)
   then setup_call (EStateInit 4) >>> setup_call EDisplayInit
   else setup_ret tt).

(** What a run of the function [main] leaves behind. *)
Record run : Type := mk_run {
  run_result : outcome unit;
  setup_calls_made : list setup_event;
  loop_calls_made : list event
}.

(** Lines 55-116: the whole of [main], the set-up followed by the [try]
    statement.  [hb0] is the heartbeat clock as the socket handler's
    constructor leaves it; the loop's calls are numbered on from the
    set-up's. *)
Definition main_with_setup (st : settings) (hb0 : Q)
    (inputs : list cycle_input) (f : faults) : run :=
  match main_setup st f (mk_setup_world [] 0) with
  | (Raise x, sw) => mk_run (Raise x) (setup_trace sw) []
  | (Ok _, sw) =>
      let (r, w) :=
        main (loop_config st) inputs f (mk_world [] (setup_steps sw) hb0) in
      mk_run r (setup_trace sw) (trace w)
  end.

(** The set-up calls of a run without faults, spelled out. *)
Definition setup_sequence (st : settings) : list setup_event :=
  let cfg := loop_config st in
  [if LORA_ON cfg then ELoRaSenderInit else ELogInfo lora_disabled_msg;
   EDetectorInit; EStreamInit; ECameraInit;
   ESetRotation (CAMERA_ROTATION st); ESetResolution (CAMERA_RESOLUTION st)] ++
  (if CONNECT_REMOTE_SERVER cfg
   then [ELogInfo "Connecting to server enabled"; ESocketHandlerInit;
         ESendHostConfigs (FILTER_CLASSES cfg) (CONTINUE_RUN st)]
   else [ELogInfo server_disabled_msg]) ++
  (if negb (HEADLESS cfg) then [EStateInit 4; EDisplayInit] else []).

(** Performing a list of set-up calls one after the other. *)
Fixpoint setup_calls (calls : list setup_event) : SM unit :=
  match calls with
  | [] => setup_ret tt
  | e :: rest => setup_call e >>> setup_calls rest
  end.

Definition example_settings : settings :=
  mk_settings example_config (PyList [PyInt 1280; PyInt 720]) (PyInt 0) false.

(** Under every fault schedule and from every world, [m] only adds calls to
    the trace, and the calls it adds satisfy [R]. *)
Definition extends (R : list event -> Prop) (m : M unit) : Prop :=
  forall f w, exists es, trace (snd (m f w)) = trace w ++ es /\ R es.

(* ===================================================================== *)
(** ** Fault-free execution *)
(* ===================================================================== *)

Definition advance (w : world) (l : list event) (n : nat) : world :=
  mk_world (trace w ++ l) (steps w + n) (last_heartbeat w).

(** Without faults, [m] completes, issues exactly the calls [l] and leaves
    the heartbeat clock alone. *)
Definition runs (m : M unit) (l : list event) : Prop :=
  forall w, exists n, m no_faults w = (Ok tt, advance w l n).

Lemma advance_advance w l1 n1 l2 n2 :
  advance (advance w l1 n1) l2 n2 = advance w (l1 ++ l2) (n1 + n2).
Proof.
  unfold advance; simpl. now rewrite app_assoc, Nat.add_assoc.
Qed.

Lemma runs_ret : runs (ret tt) [].
Proof.
  intros [tr s h]. exists 0%nat. unfold ret, advance; simpl.
  now rewrite app_nil_r, Nat.add_0_r.
Qed.

Lemma runs_perform e : runs (perform e) [e].
Proof.
  intros w. exists 1%nat. unfold perform, no_faults, advance, record_event, tick.
  simpl. now rewrite Nat.add_1_r.
Qed.

Lemma runs_bind m k l1 l2 :
  runs m l1 -> runs k l2 -> runs (m ;; k) (l1 ++ l2).
Proof.
  intros Hm Hk w. destruct (Hm w) as [n1 E1].
  destruct (Hk (advance w l1 n1)) as [n2 E2].
  exists (n1 + n2)%nat. unfold bind. rewrite E1, E2.
  now rewrite advance_advance.
Qed.

Lemma runs_when b m l :
  runs m l -> runs (when b m) (if b then l else []).
Proof.
  intros H. destruct b; simpl; [exact H | apply runs_ret].
Qed.

Lemma runs_with_open path mode body l :
  runs body l -> runs (with_open path mode body) (EOpen path mode :: l ++ [EClose]).
Proof.
  intros Hb w. unfold with_open.
  destruct (runs_perform (EOpen path mode) w) as [n1 E1]. rewrite E1.
  destruct (Hb (advance w [EOpen path mode] n1)) as [n2 E2]. rewrite E2.
  exists (n1 + n2)%nat. unfold record_event, advance; simpl.
  f_equal. f_equal; [| now rewrite Nat.add_assoc].
  now rewrite <- !app_assoc.
Qed.

Lemma any_map_filter_match cfg lboxes :
  any (map (fun itm => py_in itm (FILTER_CLASSES cfg)) (map class_name lboxes))
  = filter_match cfg lboxes.
Proof.
  unfold any, filter_match.
  induction lboxes as [| d rest IH]; simpl; [reflexivity | now rewrite IH].
Qed.

(** The decision step, run without faults, issues [decision_events]. *)
Lemma decision_step_runs cfg lboxes now :
  runs (decision_step cfg lboxes now) (decision_events cfg lboxes now).
Proof.
  unfold decision_step, decision_events, recording_condition.
  destruct lboxes as [| top rest]; [apply runs_ret |].
  destruct (RECORD cfg && float_gt (confidence top) (RECORD_CONF_THRESHOLD cfg));
    [| apply runs_ret].
  rewrite any_map_filter_match.
  apply runs_bind.
  - replace (dispatch_events cfg (top :: rest))
      with ((if CONNECT_REMOTE_SERVER cfg
             then [ESendImageAndBoxes (top :: rest)] else []) ++
            [ESaveCurrentFrame (top :: rest)] ++
            (if LORA_ON cfg
             then [ELoraSend (top1_message (class_name top))] else []))
      by reflexivity.
    apply runs_when. apply runs_bind; [apply runs_when, runs_perform |].
    apply runs_bind; [apply runs_perform | apply runs_when, runs_perform].
  - apply (runs_with_open _ _ _ [EWrite _]). apply runs_perform.
Qed.

Lemma decision_step_trace cfg lboxes now w :
  exists w',
    decision_step cfg lboxes now no_faults w = (Ok tt, w') /\
    trace w' = trace w ++ decision_events cfg lboxes now /\
    last_heartbeat w' = last_heartbeat w.
Proof.
  destruct (decision_step_runs cfg lboxes now w) as [n E].
  eexists; split; [exact E |]. split; reflexivity.
Qed.

Lemma float_eq_not_gt x y : float_eq x y = true -> float_gt x y = false.
Proof.
  unfold float_eq, SFeqb, float_gt.
  destruct (SFcompare x y) as [[ | | ] |]; congruence.
Qed.

Lemma recording_condition_cons cfg top rest :
  recording_condition cfg (top :: rest) =
  RECORD cfg && float_gt (confidence top) (RECORD_CONF_THRESHOLD cfg).
Proof. reflexivity. Qed.

Lemma filter_match_cons cfg top rest :
  filter_match cfg (top :: rest) =
  py_in (class_name top) (FILTER_CLASSES cfg) || filter_match cfg rest.
Proof. reflexivity. Qed.

(** The events of a cycle that records and dispatches. *)
Lemma decision_events_dispatch cfg lboxes now :
  recording_condition cfg lboxes = true ->
  filter_match cfg lboxes = true ->
  decision_events cfg lboxes now =
  dispatch_events cfg lboxes ++ log_events lboxes now.
Proof.
  intros Hr Hf. unfold decision_events. now rewrite Hr, Hf.
Qed.

(** The events of a cycle that records without dispatching. *)
Lemma decision_events_log_only cfg lboxes now :
  recording_condition cfg lboxes = true ->
  filter_match cfg lboxes = false ->
  decision_events cfg lboxes now = log_events lboxes now.
Proof.
  intros Hr Hf. unfold decision_events. now rewrite Hr, Hf.
Qed.

Ltac perm_step :=
  first [ apply Permutation_refl
        | apply perm_skip
        | apply Permutation_sym; apply (Permutation_cons_app [_])
        | apply Permutation_sym; apply (Permutation_cons_app [_; _])
        | apply Permutation_sym; apply (Permutation_cons_app [_; _; _]) ].

(* ===================================================================== *)
(** ** The decision policy *)
(* ===================================================================== *)

(** C1.  Run without faults from any world, the decision step of a cycle
    completes, and the log lines, persisted frames, network sends and radio
    sends it issues are, up to their order, exactly the effects of the
    verdict the three-verdict reference policy gives for the same detections
    and configuration. *)
Theorem decision_step_refines_policy :
  forall cfg lboxes now w,
  exists w' es,
    decision_step cfg lboxes now no_faults w = (Ok tt, w') /\
    trace w' = trace w ++ es /\
    Permutation (filter observable es)
      (verdict_effects cfg lboxes now (reference_policy cfg lboxes)).
Proof.
  intros cfg lboxes now w.
  destruct (decision_step_trace cfg lboxes now w) as [w' [E [T _]]].
  exists w', (decision_events cfg lboxes now). split; [exact E |].
  split; [exact T |].
  unfold decision_events, reference_policy, recording_condition,
    dispatch_events, log_events, verdict_effects.
  destruct lboxes as [| top rest]; [apply Permutation_refl |].
  destruct (filter_match cfg (top :: rest)),
    (RECORD cfg),
    (float_gt (confidence top) (RECORD_CONF_THRESHOLD cfg)); simpl;
    try apply Permutation_refl.
  destruct (CONNECT_REMOTE_SERVER cfg), (LORA_ON cfg); simpl;
    repeat perm_step.
Qed.

(** C2.  When the top detection's confidence equals the threshold, the
    reference policy says [NoAction] and the decision step, under any fault
    schedule, returns at once leaving the world as it was: no call at all is
    made, so no log line, no persisted frame, no network send and no radio
    send. *)
Theorem threshold_tie_no_action :
  forall cfg top rest now f w,
    float_eq (confidence top) (RECORD_CONF_THRESHOLD cfg) = true ->
    reference_policy cfg (top :: rest) = NoAction /\
    decision_step cfg (top :: rest) now f w = (Ok tt, w).
Proof.
  intros cfg top rest now f w H. apply float_eq_not_gt in H.
  unfold reference_policy, decision_step. rewrite H.
  rewrite andb_false_r. split; [| reflexivity].
  now destruct (RECORD cfg).
Qed.

Lemma threshold_tie_no_action_witness :
  float_eq (confidence (mk_lbox "deer" conf_0_6))
           (RECORD_CONF_THRESHOLD example_config) = true /\
  reference_policy example_config [mk_lbox "deer" conf_0_6] = NoAction /\
  decision_step example_config [mk_lbox "deer" conf_0_6] example_now
    no_faults initial_world = (Ok tt, initial_world).
Proof.
  split; [reflexivity |].
  apply (threshold_tie_no_action example_config (mk_lbox "deer" conf_0_6) []
           example_now no_faults initial_world).
  reflexivity.
Defined.

(** C3.  When the detections are non-empty, recording is enabled and the top
    confidence is strictly above the threshold, but no detected class name
    is in the allow-list, the decision step opens the sighting log, writes
    the one line for the top class and closes the file, and makes no other
    call: one line is appended to the log and nothing is sent over the
    network, persisted or sent by radio. *)
Theorem log_only_when_no_class_matches :
  forall cfg top rest now w contents,
    RECORD cfg = true ->
    float_gt (confidence top) (RECORD_CONF_THRESHOLD cfg) = true ->
    filter_match cfg (top :: rest) = false ->
    exists w' es,
      decision_step cfg (top :: rest) now no_faults w = (Ok tt, w') /\
      trace w' = trace w ++ es /\
      es = [EOpen "what_was_seen.log" "a+";
            EWrite (seen_line (strftime now) (class_name top));
            EClose] /\
      log_contents contents es =
        (contents ++ seen_line (strftime now) (class_name top))%string /\
      filter is_network_send es = [] /\
      filter is_persist es = [] /\
      filter is_radio_send es = [].
Proof.
  intros cfg top rest now w contents Hrec Hgt Hf.
  destruct (decision_step_trace cfg (top :: rest) now w) as [w' [E [T _]]].
  rewrite decision_events_log_only in T; trivial.
  - exists w', (log_events (top :: rest) now). repeat split; trivial.
  - rewrite recording_condition_cons, Hrec, Hgt. reflexivity.
Qed.

Lemma log_only_when_no_class_matches_witness :
  exists w' es,
    decision_step example_config bird_only example_now no_faults
      initial_world = (Ok tt, w') /\
    trace w' = trace initial_world ++ es /\
    es = [EOpen "what_was_seen.log" "a+";
          EWrite (seen_line (strftime example_now) "bird");
          EClose] /\
    log_contents EmptyString es =
      (EmptyString ++ seen_line (strftime example_now) "bird")%string /\
    filter is_network_send es = [] /\
    filter is_persist es = [] /\
    filter is_radio_send es = [].
Proof.
  apply (log_only_when_no_class_matches example_config
           (mk_lbox "bird" conf_0_9) [] example_now initial_world
           EmptyString);
    reflexivity.
Defined.

(** The trace of a cycle that records and dispatches: the network send when
    connected, the persisted frame, the radio message when enabled, and then
    the sighting log. *)
Lemma dispatching_trace cfg top rest now w :
  RECORD cfg = true ->
  float_gt (confidence top) (RECORD_CONF_THRESHOLD cfg) = true ->
  filter_match cfg (top :: rest) = true ->
  exists w',
    decision_step cfg (top :: rest) now no_faults w = (Ok tt, w') /\
    trace w' = trace w ++
      (if CONNECT_REMOTE_SERVER cfg
       then [ESendImageAndBoxes (top :: rest)] else []) ++
      [ESaveCurrentFrame (top :: rest)] ++
      (if LORA_ON cfg
       then [ELoraSend (top1_message (class_name top))] else []) ++
      [EOpen "what_was_seen.log" "a+";
       EWrite (seen_line (strftime now) (class_name top));
       EClose].
Proof.
  intros Hrec Hgt Hf.
  destruct (decision_step_trace cfg (top :: rest) now w) as [w' [E [T _]]].
  exists w'. split; [exact E |]. rewrite T. f_equal.
  rewrite decision_events_dispatch; trivial.
  - unfold dispatch_events, log_events. now rewrite <- !app_assoc.
  - rewrite recording_condition_cons, Hrec, Hgt. reflexivity.
Qed.

(** C4, as stated, fails.  With the example configuration (remote server and
    radio both on) and the detections deer 0.8, bird 0.3, the recording
    condition holds and a class matches, yet the log entry does not come
    first. *)
Lemma log_first_order_counterexample :
  recording_condition example_config deer_and_bird = true /\
  filter_match example_config deer_and_bird = true /\
  log_first_order example_config
    (trace (snd (decision_step example_config deer_and_bird example_now
                   no_faults initial_world))) = false.
Proof. repeat split; vm_compute; reflexivity. Qed.

(** C4, amended.  In every cycle where the recording condition holds and
    some detected class is in the allow-list, the calls are made in this
    order: network send (if connected), frame persistence, radio message (if
    radio enabled), and last the sighting-log entry. *)
Theorem dispatch_order_log_last :
  forall cfg top rest now w,
    RECORD cfg = true ->
    float_gt (confidence top) (RECORD_CONF_THRESHOLD cfg) = true ->
    filter_match cfg (top :: rest) = true ->
    exists w',
      decision_step cfg (top :: rest) now no_faults w = (Ok tt, w') /\
      trace w' = trace w ++
        (if CONNECT_REMOTE_SERVER cfg
         then [ESendImageAndBoxes (top :: rest)] else []) ++
        [ESaveCurrentFrame (top :: rest)] ++
        (if LORA_ON cfg
         then [ELoraSend (top1_message (class_name top))] else []) ++
        [EOpen "what_was_seen.log" "a+";
         EWrite (seen_line (strftime now) (class_name top));
         EClose].
Proof.
  intros cfg top rest now w Hrec Hgt Hf.
  now apply dispatching_trace.
Qed.

Lemma dispatch_order_log_last_witness :
  exists w',
    decision_step example_config deer_and_bird example_now no_faults
      initial_world = (Ok tt, w') /\
    trace w' =
      [ESendImageAndBoxes deer_and_bird;
       ESaveCurrentFrame deer_and_bird;
       ELoraSend "Top-1: deer";
       EOpen "what_was_seen.log" "a+";
       EWrite (seen_line "2021-06-15 07:04:59" "deer");
       EClose].
Proof.
  apply (dispatch_order_log_last example_config (mk_lbox "deer" conf_0_8)
           [mk_lbox "bird" conf_0_3] example_now initial_world);
    reflexivity.
Defined.

(** C8.  When radio alerting is enabled, a cycle that records and
    dispatches sends exactly one radio message, and it is the string
    [Top-1: ] followed by the class name of the detection at index 0. *)
Theorem radio_message_is_top1 :
  forall cfg top rest now w,
    LORA_ON cfg = true ->
    RECORD cfg = true ->
    float_gt (confidence top) (RECORD_CONF_THRESHOLD cfg) = true ->
    filter_match cfg (top :: rest) = true ->
    exists w' es,
      decision_step cfg (top :: rest) now no_faults w = (Ok tt, w') /\
      trace w' = trace w ++ es /\
      filter is_radio_send es = [ELoraSend ("Top-1: " ++ class_name top)].
Proof.
  intros cfg top rest now w Hl Hrec Hgt Hf.
  destruct (dispatching_trace cfg top rest now w Hrec Hgt Hf) as [w' [E T]].
  eexists; eexists. split; [exact E |]. split; [exact T |].
  rewrite Hl. destruct (CONNECT_REMOTE_SERVER cfg); reflexivity.
Qed.

Lemma radio_message_is_top1_witness :
  exists w' es,
    decision_step example_config deer_and_bird example_now no_faults
      initial_world = (Ok tt, w') /\
    trace w' = trace initial_world ++ es /\
    filter is_radio_send es = [ELoraSend "Top-1: deer"].
Proof.
  apply (radio_message_is_top1 example_config (mk_lbox "deer" conf_0_8)
           [mk_lbox "bird" conf_0_3] example_now initial_world);
    reflexivity.
Defined.

(** C10.  When the recording condition holds, the top detection's class is
    not in the allow-list but the class of some lower-ranked detection is,
    the cycle still dispatches (the frame is persisted, and sent when
    connected), and both the radio message, when radio is enabled, and the
    line written to the sighting log carry the top detection's class name. *)
Theorem top_class_named_even_if_not_listed :
  forall cfg top rest now w,
    RECORD cfg = true ->
    float_gt (confidence top) (RECORD_CONF_THRESHOLD cfg) = true ->
    py_in (class_name top) (FILTER_CLASSES cfg) = false ->
    filter_match cfg rest = true ->
    exists w' es,
      decision_step cfg (top :: rest) now no_faults w = (Ok tt, w') /\
      trace w' = trace w ++ es /\
      filter is_persist es = [ESaveCurrentFrame (top :: rest)] /\
      filter is_network_send es =
        (if CONNECT_REMOTE_SERVER cfg
         then [ESendImageAndBoxes (top :: rest)] else []) /\
      filter is_radio_send es =
        (if LORA_ON cfg
         then [ELoraSend ("Top-1: " ++ class_name top)] else []) /\
      filter is_log_line es =
        [EWrite (strftime now ++ " | " ++ class_name top ++ newline)].
Proof.
  intros cfg top rest now w Hrec Hgt Htop Hrest.
  assert (Hf : filter_match cfg (top :: rest) = true)
    by (rewrite filter_match_cons, Htop, Hrest; reflexivity).
  destruct (dispatching_trace cfg top rest now w Hrec Hgt Hf) as [w' [E T]].
  eexists; eexists. split; [exact E |]. split; [exact T |].
  destruct (CONNECT_REMOTE_SERVER cfg), (LORA_ON cfg); repeat split.
Qed.

Lemma top_class_named_even_if_not_listed_witness :
  exists w' es,
    decision_step example_config bird_then_deer example_now no_faults
      initial_world = (Ok tt, w') /\
    trace w' = trace initial_world ++ es /\
    filter is_persist es = [ESaveCurrentFrame bird_then_deer] /\
    filter is_network_send es = [ESendImageAndBoxes bird_then_deer] /\
    filter is_radio_send es = [ELoraSend "Top-1: bird"] /\
    filter is_log_line es =
      [EWrite (strftime example_now ++ " | " ++ "bird" ++ newline)].
Proof.
  apply (top_class_named_even_if_not_listed example_config
           (mk_lbox "bird" conf_0_9) [mk_lbox "deer" conf_0_3]
           example_now initial_world);
    reflexivity.
Defined.

(* ===================================================================== *)
(** ** The sighting log *)
(* ===================================================================== *)

Lemma is_digit_digit n : is_digit (digit n) = true.
Proof.
  unfold is_digit, digit.
  assert (H : (n mod 10 < 10)%N) by (apply N.mod_lt; discriminate).
  set (r := (n mod 10)%N) in *. clearbody r.
  rewrite N_ascii_embedding by lia.
  apply andb_true_intro; split; apply N.leb_le; lia.
Qed.

Lemma digit_value_digit n : digit_value (digit n) = (n mod 10)%N.
Proof.
  unfold digit_value, digit.
  assert (H : (n mod 10 < 10)%N) by (apply N.mod_lt; discriminate).
  set (r := (n mod 10)%N) in *. clearbody r.
  rewrite N_ascii_embedding by lia. lia.
Qed.

Lemma pad2_value n : (n < 100)%N -> decimal_value (pad2 n) 0 = n.
Proof.
  intros H. unfold pad2. cbn [decimal_value]. rewrite !digit_value_digit.
  assert (Hq : (n / 10 < 10)%N) by (apply N.Div0.div_lt_upper_bound; lia).
  rewrite (N.mod_small (n / 10) 10) by exact Hq.
  pose proof (N.div_mod n 10 ltac:(discriminate)) as E.
  set (q := (n / 10)%N) in *. set (r := (n mod 10)%N) in *.
  clearbody q r. lia.
Qed.

Lemma pad4_value n : (n < 10000)%N -> decimal_value (pad4 n) 0 = n.
Proof.
  intros H. unfold pad4, pad2. cbn [decimal_value].
  rewrite !digit_value_digit.
  assert (E100 : (n / 100 = n / 10 / 10)%N)
    by (rewrite N.Div0.div_div; reflexivity).
  assert (E1000 : (n / 1000 = n / 100 / 10)%N)
    by (rewrite N.Div0.div_div; reflexivity).
  assert (Hq : (n / 1000 < 10)%N) by (apply N.Div0.div_lt_upper_bound; lia).
  rewrite (N.mod_small (n / 1000) 10) by exact Hq.
  pose proof (N.div_mod n 10 ltac:(discriminate)) as E1.
  pose proof (N.div_mod (n / 10) 10 ltac:(discriminate)) as E2.
  pose proof (N.div_mod (n / 100) 10 ltac:(discriminate)) as E3.
  rewrite <- E100 in E2. rewrite <- E1000 in E3.
  set (a := (n / 1000)%N) in *. set (b := ((n / 100) mod 10)%N) in *.
  set (c := ((n / 10) mod 10)%N) in *. set (d := (n mod 10)%N) in *.
  set (q1 := (n / 10)%N) in *. set (q2 := (n / 100)%N) in *.
  clearbody a b c d q1 q2. lia.
Qed.

Lemma read_timestamp_strftime d :
  valid_datetime d -> read_timestamp (strftime d) = d.
Proof.
  destruct d as [y mo da h mi se]. unfold valid_datetime; simpl.
  intros (Hy & Hmo & Hda & Hh & Hmi & Hse).
  unfold read_timestamp, strftime; simpl year; simpl month; simpl day;
    simpl hour; simpl minute; simpl second.
  change (pad4 y ++ "-" ++ pad2 mo ++ "-" ++ pad2 da ++ " " ++
          pad2 h ++ ":" ++ pad2 mi ++ ":" ++ pad2 se)%string
    with (String (digit (y / 1000)) (String (digit (y / 100))
           (String (digit (y / 10)) (String (digit y)
           (String "-" (String (digit (mo / 10)) (String (digit mo)
           (String "-" (String (digit (da / 10)) (String (digit da)
           (String " " (String (digit (h / 10)) (String (digit h)
           (String ":" (String (digit (mi / 10)) (String (digit mi)
           (String ":" (String (digit (se / 10)) (String (digit se)
           EmptyString))))))))))))))))))).
  cbn [substring].
  change (String (digit (y / 1000)) (String (digit (y / 100))
           (String (digit (y / 10)) (String (digit y) EmptyString))))
    with (pad4 y).
  change (String (digit (mo / 10)) (String (digit mo) EmptyString)) with (pad2 mo).
  change (String (digit (da / 10)) (String (digit da) EmptyString)) with (pad2 da).
  change (String (digit (h / 10)) (String (digit h) EmptyString)) with (pad2 h).
  change (String (digit (mi / 10)) (String (digit mi) EmptyString)) with (pad2 mi).
  change (String (digit (se / 10)) (String (digit se) EmptyString)) with (pad2 se).
  rewrite pad4_value by lia. rewrite !pad2_value by lia. reflexivity.
Qed.

Lemma strftime_shape d : matches_shape timestamp_shape (strftime d) = true.
Proof.
  unfold strftime, pad4, pad2, timestamp_shape. cbn [append matches_shape].
  rewrite !is_digit_digit. reflexivity.
Qed.

(** C9.  A cycle in which the recording condition holds opens
    [what_was_seen.log] in mode [a+], writes exactly one string, and closes
    the file; the string is the timestamp, of the shape
    [YYYY-MM-DD HH:MM:SS] and reading back as the current time, followed by
    space, pipe, space, the top detection's class name and a newline.  A
    cycle in which the recording condition does not hold never touches the
    file. *)
Theorem sighting_log_line_format :
  forall cfg lboxes now w,
    valid_datetime now ->
    exists w' es,
      decision_step cfg lboxes now no_faults w = (Ok tt, w') /\
      trace w' = trace w ++ es /\
      filter is_file_event es =
        (if recording_condition cfg lboxes
         then [EOpen "what_was_seen.log" "a+";
               EWrite (strftime now ++ " | " ++ top_class_of lboxes ++ newline);
               EClose]
         else []) /\
      matches_shape timestamp_shape (strftime now) = true /\
      read_timestamp (strftime now) = now.
Proof.
  intros cfg lboxes now w Hvalid.
  destruct (decision_step_trace cfg lboxes now w) as [w' [E [T _]]].
  eexists; eexists. split; [exact E |]. split; [exact T |].
  split; [| split; [apply strftime_shape | now apply read_timestamp_strftime]].
  unfold decision_events, dispatch_events, log_events.
  destruct (recording_condition cfg lboxes); [| reflexivity].
  destruct (filter_match cfg lboxes), (CONNECT_REMOTE_SERVER cfg),
    (LORA_ON cfg); reflexivity.
Qed.

Lemma sighting_log_line_format_witness :
  valid_datetime example_now /\
  exists w' es,
    decision_step example_config deer_and_bird example_now no_faults
      initial_world = (Ok tt, w') /\
    trace w' = trace initial_world ++ es /\
    filter is_file_event es =
      [EOpen "what_was_seen.log" "a+";
       EWrite (strftime example_now ++ " | " ++ "deer" ++ newline);
       EClose] /\
    matches_shape timestamp_shape (strftime example_now) = true /\
    read_timestamp (strftime example_now) = example_now.
Proof.
  assert (H : valid_datetime example_now)
    by (unfold valid_datetime; simpl; lia).
  split; [exact H |].
  exact (sighting_log_line_format example_config deer_and_bird example_now
           initial_world H).
Defined.

(* ===================================================================== *)
(** ** Cycles and the capture loop, without faults *)
(* ===================================================================== *)

Lemma heartbeat_check_runs cfg now w :
  exists n,
    when (CONNECT_REMOTE_SERVER cfg) (send_heartbeat_every_15s now) no_faults w
    = (Ok tt,
       mk_world (trace w ++ heartbeat_events cfg (last_heartbeat w) now)
                (steps w + n)
                (next_heartbeat cfg (last_heartbeat w) now)).
Proof.
  unfold heartbeat_events, next_heartbeat, heartbeat_due.
  destruct (CONNECT_REMOTE_SERVER cfg); simpl.
  - unfold send_heartbeat_every_15s, bind, get_last_heartbeat.
    destruct (Qle_bool 15 (now - last_heartbeat w)).
    + exists 1%nat. unfold perform, no_faults, set_last_heartbeat; simpl.
      now rewrite Nat.add_1_r.
    + exists 0%nat. unfold ret. destruct w; simpl.
      now rewrite app_nil_r, Nat.add_0_r.
  - exists 0%nat. unfold ret. destruct w; simpl.
    now rewrite app_nil_r, Nat.add_0_r.
Qed.

Lemma after_heartbeat_runs cfg inp :
  runs (perform EInfer ;;
        perform EPrintReport ;;
        when (negb (HEADLESS cfg)) (perform (EDisplayUpdate (labeled_boxes inp))) ;;
        decision_step cfg (labeled_boxes inp) (wall_clock inp) ;;
        perform EStreamSeek ;;
        perform EStreamTruncate)
       (inference_events cfg inp ++
        decision_events cfg (labeled_boxes inp) (wall_clock inp) ++
        [EStreamSeek; EStreamTruncate]).
Proof.
  unfold inference_events.
  change ([EInfer; EPrintReport] ++
          (if negb (HEADLESS cfg)
           then [EDisplayUpdate (labeled_boxes inp)] else []))
    with ([EInfer] ++ [EPrintReport] ++
          (if negb (HEADLESS cfg)
           then [EDisplayUpdate (labeled_boxes inp)] else [])).
  rewrite <- !app_assoc.
  apply runs_bind; [apply runs_perform |].
  apply runs_bind; [apply runs_perform |].
  apply runs_bind; [apply runs_when, runs_perform |].
  apply runs_bind; [apply decision_step_runs |].
  apply (runs_bind _ _ [EStreamSeek] [EStreamTruncate]); apply runs_perform.
Qed.

(** One fault-free cycle. *)
Lemma cycle_trace cfg inp w :
  exists w',
    cycle cfg inp no_faults w = (Ok tt, w') /\
    trace w' = trace w ++ ECapture ::
      heartbeat_events cfg (last_heartbeat w) (heartbeat_clock inp) ++
      inference_events cfg inp ++
      decision_events cfg (labeled_boxes inp) (wall_clock inp) ++
      [EStreamSeek; EStreamTruncate] /\
    last_heartbeat w' =
      next_heartbeat cfg (last_heartbeat w) (heartbeat_clock inp).
Proof.
  unfold cycle. cbv zeta. unfold bind at 1.
  destruct (runs_perform ECapture w) as [n1 E1]. rewrite E1.
  unfold bind at 1.
  destruct (heartbeat_check_runs cfg (heartbeat_clock inp)
              (advance w [ECapture] n1)) as [n2 E2].
  rewrite E2.
  match goal with |- context [?m no_faults (mk_world ?t ?s ?h)] =>
    destruct (after_heartbeat_runs cfg inp (mk_world t s h)) as [n3 E3]
  end.
  eexists. split; [exact E3 |]. simpl. split; [| reflexivity].
  now rewrite <- !app_assoc.
Qed.

Lemma capture_loop_app cfg l1 l2 f w :
  capture_loop cfg (l1 ++ l2) f w =
  match capture_loop cfg l1 f w with
  | (Ok _, w1) => capture_loop cfg l2 f w1
  | (Raise x, w1) => (Raise x, w1)
  end.
Proof.
  revert w. induction l1 as [| inp l1 IH]; intros w; simpl.
  - reflexivity.
  - unfold bind. destruct (cycle cfg inp f w) as [[[] | x] w1];
      [apply IH | reflexivity].
Qed.

(** The fault-free loop runs through all the frames it is given. *)
Lemma capture_loop_total cfg inputs w :
  exists w' es,
    capture_loop cfg inputs no_faults w = (Ok tt, w') /\
    trace w' = trace w ++ es.
Proof.
  revert w. induction inputs as [| inp rest IH]; intros w; simpl.
  - exists w, []. split; [reflexivity | now rewrite app_nil_r].
  - destruct (cycle_trace cfg inp w) as [w1 [E1 [T1 _]]].
    destruct (IH w1) as [w2 [es [E2 T2]]].
    unfold bind. rewrite E1. eexists; eexists. split; [exact E2 |].
    rewrite T2, T1, <- app_assoc. reflexivity.
Qed.

Lemma existsb_is_capture_decision cfg lboxes now :
  existsb is_capture (decision_events cfg lboxes now) = false.
Proof.
  unfold decision_events, dispatch_events, log_events.
  destruct (recording_condition cfg lboxes); [| reflexivity].
  destruct (filter_match cfg lboxes), (CONNECT_REMOTE_SERVER cfg),
    (LORA_ON cfg); reflexivity.
Qed.

Lemma existsb_is_heartbeat_decision cfg lboxes now :
  existsb is_heartbeat (decision_events cfg lboxes now) = false.
Proof.
  unfold decision_events, dispatch_events, log_events.
  destruct (recording_condition cfg lboxes); [| reflexivity].
  destruct (filter_match cfg lboxes), (CONNECT_REMOTE_SERVER cfg),
    (LORA_ON cfg); reflexivity.
Qed.

Lemma observable_inference_events cfg inp last :
  existsb observable
    (heartbeat_events cfg last (heartbeat_clock inp) ++
     inference_events cfg inp) = false /\
  existsb is_capture
    (heartbeat_events cfg last (heartbeat_clock inp) ++
     inference_events cfg inp) = false.
Proof.
  unfold heartbeat_events, inference_events.
  destruct (CONNECT_REMOTE_SERVER cfg && heartbeat_due last (heartbeat_clock inp)),
    (HEADLESS cfg); split; reflexivity.
Qed.

Lemma dispatch_order_facts cfg lboxes now :
  let ds := decision_events cfg lboxes now in
  occurs_before is_network_send is_persist ds =
    recording_condition cfg lboxes && filter_match cfg lboxes &&
    CONNECT_REMOTE_SERVER cfg /\
  occurs_before is_persist is_network_send ds = false /\
  occurs_before is_persist is_radio_send ds =
    recording_condition cfg lboxes && filter_match cfg lboxes &&
    LORA_ON cfg /\
  occurs_before is_radio_send is_persist ds = false.
Proof.
  unfold decision_events, dispatch_events, log_events.
  destruct (recording_condition cfg lboxes), (filter_match cfg lboxes),
    (CONNECT_REMOTE_SERVER cfg), (LORA_ON cfg); repeat split.
Qed.

(* ===================================================================== *)
(** ** Ordering within and across cycles *)
(* ===================================================================== *)

(** C5.  A fault-free cycle, followed by at least one more frame, runs as
    follows.  Its trace is the capture, some calls [before] that are not
    observable side effects, the calls [ds] of its decision step, and the
    reset of the stream; nothing in it after the first call is a capture; and
    the very next call of the loop is the capture of the following cycle, so
    every side effect of the cycle has been issued by then.  Within [ds], a
    network send precedes the frame persistence exactly when the cycle
    dispatches and the remote server is connected, a radio send follows the
    persistence exactly when the cycle dispatches and the radio is on, and
    never the other way round. *)
Theorem cycle_effects_precede_next_capture :
  forall cfg inp nxt post w,
  exists w2 w3 before ds tail,
    cycle cfg inp no_faults w = (Ok tt, w2) /\
    trace w2 =
      trace w ++ ECapture :: before ++ ds ++ [EStreamSeek; EStreamTruncate] /\
    (forall wa, exists wb,
       decision_step cfg (labeled_boxes inp) (wall_clock inp) no_faults wa
         = (Ok tt, wb) /\
       trace wb = trace wa ++ ds) /\
    existsb observable before = false /\
    existsb is_capture (before ++ ds ++ [EStreamSeek; EStreamTruncate]) = false /\
    capture_loop cfg (inp :: nxt :: post) no_faults w = (Ok tt, w3) /\
    trace w3 = trace w2 ++ ECapture :: tail /\
    occurs_before is_network_send is_persist ds =
      recording_condition cfg (labeled_boxes inp) &&
      filter_match cfg (labeled_boxes inp) && CONNECT_REMOTE_SERVER cfg /\
    occurs_before is_persist is_network_send ds = false /\
    occurs_before is_persist is_radio_send ds =
      recording_condition cfg (labeled_boxes inp) &&
      filter_match cfg (labeled_boxes inp) && LORA_ON cfg /\
    occurs_before is_radio_send is_persist ds = false.
Proof.
  intros cfg inp nxt post w.
  destruct (cycle_trace cfg inp w) as [w2 [E2 [T2 _]]].
  destruct (cycle_trace cfg nxt w2) as [w2' [E2' [T2' _]]].
  destruct (capture_loop_total cfg post w2') as [w3 [es [E3 T3]]].
  destruct (observable_inference_events cfg inp (last_heartbeat w))
    as [Hobs Hcap].
  exists w2, w3,
    (heartbeat_events cfg (last_heartbeat w) (heartbeat_clock inp) ++
     inference_events cfg inp),
    (decision_events cfg (labeled_boxes inp) (wall_clock inp)).
  eexists.
  split; [exact E2 |].
  split; [rewrite T2, <- !app_assoc; reflexivity |].
  split.
  { intros wa.
    destruct (decision_step_trace cfg (labeled_boxes inp) (wall_clock inp) wa)
      as [wb [Eb [Tb _]]].
    exists wb. split; assumption. }
  split; [exact Hobs |].
  split.
  { rewrite existsb_app, Hcap, existsb_app, existsb_is_capture_decision.
    reflexivity. }
  split.
  { simpl. unfold bind. rewrite E2, E2'. exact E3. }
  split.
  { rewrite T3, T2', <- app_assoc. simpl. reflexivity. }
  apply dispatch_order_facts.
Qed.

(* ===================================================================== *)
(** ** The heartbeat *)
(* ===================================================================== *)

Lemma heartbeat_not_due last now :
  now - last < 15 -> heartbeat_due last now = false.
Proof.
  intros H. unfold heartbeat_due.
  destruct (Qle_bool 15 (now - last)) eqn:E; [| reflexivity].
  apply Qle_bool_iff in E. exfalso. exact (Qlt_not_le _ _ H E).
Qed.

Lemma heartbeat_is_due last now :
  15 <= now - last -> heartbeat_due last now = true.
Proof.
  intros H. unfold heartbeat_due. now apply Qle_bool_iff.
Qed.

Lemma existsb_is_heartbeat_rest cfg inp :
  existsb is_heartbeat
    (inference_events cfg inp ++
     decision_events cfg (labeled_boxes inp) (wall_clock inp) ++
     [EStreamSeek; EStreamTruncate]) = false.
Proof.
  rewrite !existsb_app, existsb_is_heartbeat_decision.
  unfold inference_events. destruct (HEADLESS cfg); reflexivity.
Qed.

(** While no heartbeat is due, the loop sends none and the clock stays. *)
Lemma capture_loop_no_heartbeat cfg pre w :
  (forall i, In i pre -> heartbeat_clock i - last_heartbeat w < 15) ->
  exists w1 es,
    capture_loop cfg pre no_faults w = (Ok tt, w1) /\
    trace w1 = trace w ++ es /\
    existsb is_heartbeat es = false /\
    last_heartbeat w1 = last_heartbeat w.
Proof.
  revert w. induction pre as [| inp rest IH]; intros w Hpre; simpl.
  - exists w, []. repeat split. now rewrite app_nil_r.
  - destruct (cycle_trace cfg inp w) as [w1 [E1 [T1 L1]]].
    assert (Hnd : heartbeat_due (last_heartbeat w) (heartbeat_clock inp) = false)
      by (apply heartbeat_not_due, Hpre; now left).
    unfold heartbeat_events in T1. unfold next_heartbeat in L1.
    rewrite Hnd, andb_false_r in T1, L1. simpl in T1.
    destruct (IH w1) as [w2 [es [E2 [T2 [H2 L2]]]]].
    { intros i Hi. rewrite L1. apply Hpre. now right. }
    unfold bind. rewrite E1. eexists; eexists.
    split; [exact E2 |].
    split; [rewrite T2, T1, <- app_assoc; reflexivity |].
    split; [| congruence].
    rewrite existsb_app, H2. simpl.
    rewrite !existsb_app, existsb_is_heartbeat_decision.
    destruct (HEADLESS cfg); reflexivity.
Qed.

(** C6.  With a remote connection configured, let the heartbeat clock read
    less than 15 seconds past the last heartbeat at each of the cycles
    [pre], and at least 15 seconds past it at the next cycle [inp], whatever
    the time that went by between two cycles.  Then the fault-free loop sends
    no heartbeat during [pre] and leaves the clock as it was; in cycle [inp]
    it sends exactly one heartbeat, right after the capture and before
    inference, and the clock is reset to the time read in that cycle. *)
Theorem heartbeat_at_first_due_cycle :
  forall cfg pre inp w,
    CONNECT_REMOTE_SERVER cfg = true ->
    (forall i, In i pre -> heartbeat_clock i - last_heartbeat w < 15) ->
    15 <= heartbeat_clock inp - last_heartbeat w ->
    exists w1 w2 es tail,
      capture_loop cfg pre no_faults w = (Ok tt, w1) /\
      trace w1 = trace w ++ es /\
      existsb is_heartbeat es = false /\
      last_heartbeat w1 = last_heartbeat w /\
      cycle cfg inp no_faults w1 = (Ok tt, w2) /\
      capture_loop cfg (pre ++ [inp]) no_faults w = (Ok tt, w2) /\
      trace w2 = trace w1 ++ ECapture :: EHeartbeat :: EInfer :: tail /\
      existsb is_heartbeat tail = false /\
      last_heartbeat w2 = heartbeat_clock inp.
Proof.
  intros cfg pre inp w Hc Hpre Hdue.
  destruct (capture_loop_no_heartbeat cfg pre w Hpre)
    as [w1 [es [E1 [T1 [H1 L1]]]]].
  destruct (cycle_trace cfg inp w1) as [w2 [E2 [T2 L2]]].
  assert (Hd : heartbeat_due (last_heartbeat w1) (heartbeat_clock inp) = true)
    by (rewrite L1; now apply heartbeat_is_due).
  unfold heartbeat_events in T2. unfold next_heartbeat in L2.
  rewrite Hc, Hd in T2, L2. simpl in T2, L2.
  exists w1, w2, es. eexists.
  repeat (split; [eassumption |]).
  split.
  { rewrite capture_loop_app, E1. simpl. unfold bind. rewrite E2.
    reflexivity. }
  split; [exact T2 |].
  split; [| exact L2].
  pose proof (existsb_is_heartbeat_rest cfg inp) as Hr.
  unfold inference_events in Hr. simpl in Hr. exact Hr.
Qed.

Lemma heartbeat_at_first_due_cycle_witness :
  exists w1 w2 es tail,
    capture_loop example_config early_inputs no_faults initial_world
      = (Ok tt, w1) /\
    trace w1 = trace initial_world ++ es /\
    existsb is_heartbeat es = false /\
    last_heartbeat w1 = last_heartbeat initial_world /\
    cycle example_config late_input no_faults w1 = (Ok tt, w2) /\
    capture_loop example_config (early_inputs ++ [late_input]) no_faults
      initial_world = (Ok tt, w2) /\
    trace w2 = trace w1 ++ ECapture :: EHeartbeat :: EInfer :: tail /\
    existsb is_heartbeat tail = false /\
    last_heartbeat w2 = heartbeat_clock late_input.
Proof.
  apply (heartbeat_at_first_due_cycle example_config early_inputs late_input
           initial_world).
  - reflexivity.
  - intros i [<- | [<- | []]]; reflexivity.
  - vm_compute. discriminate.
Defined.

(* ===================================================================== *)
(** ** Interrupts and failures *)
(* ===================================================================== *)

Lemma no_shutdown_snoc tr e :
  no_shutdown tr = true -> is_shutdown_event e = false ->
  no_shutdown (tr ++ [e]) = true.
Proof.
  unfold no_shutdown. intros H He. rewrite existsb_app. simpl.
  rewrite He. apply negb_true_iff in H. rewrite H. reflexivity.
Qed.

Lemma interruptible_ret k x : interruptible k x (ret tt).
Proof.
  intros w Hs Hn. unfold ret. repeat split; trivial.
Qed.

Lemma interruptible_perform k x e :
  is_shutdown_event e = false -> interruptible k x (perform e).
Proof.
  intros He w Hs Hn. unfold perform, single_fault.
  destruct (Nat.eqb_spec (steps w) k) as [Heq | Hne]; simpl.
  - repeat split; [congruence | exact Hn].
  - repeat split; [lia | lia | now apply no_shutdown_snoc].
Qed.

Lemma interruptible_bind k x m n :
  interruptible k x m -> interruptible k x n -> interruptible k x (m ;; n).
Proof.
  intros Hm Hn w Hs Ht. unfold bind. specialize (Hm w Hs Ht).
  destruct (m (single_fault k x) w) as [[[] | y] w1]; [| exact Hm].
  destruct Hm as [[H1 H2] H3]. specialize (Hn w1 H2 H3).
  destruct (n (single_fault k x) w1) as [[[] | y] w2]; [| exact Hn].
  destruct Hn as [[H4 H5] H6]. repeat split; [lia | lia | exact H6].
Qed.

Lemma interruptible_when k x b m :
  interruptible k x m -> interruptible k x (when b m).
Proof.
  intros H. destruct b; [exact H | apply interruptible_ret].
Qed.

Lemma interruptible_with_open k x path mode body :
  interruptible k x body -> interruptible k x (with_open path mode body).
Proof.
  intros Hb w Hs Ht. unfold with_open.
  pose proof (interruptible_perform k x (EOpen path mode) eq_refl w Hs Ht) as Ho.
  destruct (perform (EOpen path mode) (single_fault k x) w) as [[[] | y] w1];
    [| exact Ho].
  destruct Ho as [[H1 H2] H3]. specialize (Hb w1 H2 H3).
  destruct (body (single_fault k x) w1) as [[[] | y] w2]; simpl.
  - destruct Hb as [[H4 H5] H6].
    repeat split; [lia | lia | now apply no_shutdown_snoc].
  - destruct Hb as [H4 [H5 H6]].
    repeat split; [exact H4 | exact H5 | now apply no_shutdown_snoc].
Qed.

Lemma interruptible_heartbeat k x now :
  interruptible k x (send_heartbeat_every_15s now).
Proof.
  intros w Hs Ht. unfold send_heartbeat_every_15s, bind at 1, get_last_heartbeat.
  destruct (Qle_bool 15 (now - last_heartbeat w)).
  - unfold bind.
    pose proof (interruptible_perform k x EHeartbeat eq_refl w Hs Ht) as Hp.
    destruct (perform EHeartbeat (single_fault k x) w) as [[[] | y] w1];
      [| exact Hp].
    unfold set_last_heartbeat; simpl. exact Hp.
  - apply (interruptible_ret k x w Hs Ht).
Qed.

Lemma interruptible_decision_step k x cfg lboxes now :
  interruptible k x (decision_step cfg lboxes now).
Proof.
  unfold decision_step. destruct lboxes as [| top rest];
    [apply interruptible_ret |].
  destruct (RECORD cfg && float_gt (confidence top) (RECORD_CONF_THRESHOLD cfg));
    [| apply interruptible_ret].
  apply interruptible_bind.
  - apply interruptible_when. apply interruptible_bind;
      [apply interruptible_when, interruptible_perform; reflexivity |].
    apply interruptible_bind;
      [apply interruptible_perform; reflexivity |].
    apply interruptible_when, interruptible_perform; reflexivity.
  - apply interruptible_with_open, interruptible_perform; reflexivity.
Qed.

Lemma interruptible_cycle k x cfg inp : interruptible k x (cycle cfg inp).
Proof.
  unfold cycle. cbv zeta.
  repeat first
    [ apply interruptible_bind
    | apply interruptible_when
    | apply interruptible_heartbeat
    | apply interruptible_decision_step
    | apply interruptible_perform; reflexivity ].
Qed.

Ltac interruptible_steps :=
  repeat first
    [ apply interruptible_bind
    | apply interruptible_when
    | apply interruptible_heartbeat
    | apply interruptible_decision_step
    | apply interruptible_perform; reflexivity ].

Lemma perform_ok_steps e f w w1 :
  perform e f w = (Ok tt, w1) -> steps w1 = S (steps w).
Proof.
  unfold perform. destruct (f (steps w)); intros H; inversion H; reflexivity.
Qed.

Lemma perform_off_fault e k x w :
  steps w <> k ->
  perform e (single_fault k x) w = (Ok tt, record_event e (tick w)).
Proof.
  intros H. unfold perform, single_fault.
  now destruct (Nat.eqb_spec (steps w) k).
Qed.

(** A cycle that completes has made at least one call: the capture. *)
Lemma cycle_interrupted k x cfg inp w :
  (steps w <= k)%nat -> no_shutdown (trace w) = true ->
  match cycle cfg inp (single_fault k x) w with
  | (Ok _, w') =>
      (steps w < steps w' <= k)%nat /\ no_shutdown (trace w') = true
  | (Raise y, w') =>
      y = x /\ steps w' = S k /\ no_shutdown (trace w') = true
  end.
Proof.
  intros Hs Ht. unfold cycle. cbv zeta. unfold bind at 1.
  pose proof (interruptible_perform k x ECapture eq_refl w Hs Ht) as Hp.
  destruct (perform ECapture (single_fault k x) w) as [[[] | y] w1] eqn:Ep;
    [| exact Hp].
  apply perform_ok_steps in Ep. destruct Hp as [[H1 H2] H3].
  match goal with |- context [?m (single_fault k x) w1] =>
    assert (Hi : interruptible k x m) by interruptible_steps;
    specialize (Hi w1 H2 H3);
    destruct (m (single_fault k x) w1) as [[[] | y] w2]
  end; [| exact Hi].
  destruct Hi as [[H4 H5] H6]. repeat split; [lia | lia | exact H6].
Qed.

(** If the fault falls within the frames supplied, the loop raises it. *)
Lemma capture_loop_interrupted k x cfg inputs :
  forall w,
    (steps w <= k < steps w + List.length inputs)%nat ->
    no_shutdown (trace w) = true ->
    exists w',
      capture_loop cfg inputs (single_fault k x) w = (Raise x, w') /\
      steps w' = S k /\
      no_shutdown (trace w') = true.
Proof.
  induction inputs as [| inp rest IH]; intros w [Hs Hk] Ht; simpl in *.
  - lia.
  - unfold bind. pose proof (cycle_interrupted k x cfg inp w Hs Ht) as Hc.
    destruct (cycle cfg inp (single_fault k x) w) as [[[] | y] w1].
    + destruct Hc as [[H1 H2] H3]. apply IH; [lia | exact H3].
    + destruct Hc as [-> [H2 H3]]. exists w1. repeat split; assumption.
Qed.

(** C7.  Let exactly one exception be delivered, at any call [k] that falls
    within the loop.  If it is [KeyboardInterrupt], the loop is left with
    that exception, no warning or socket close having been issued before;
    [main] then logs the warning, closes the socket if a remote connection
    is configured, and returns normally, so the process exits with code 0.
    If it is any other exception, [main] issues neither call and ends with
    that exception unhandled. *)
Theorem interrupt_is_handled_other_failures_are_not :
  forall cfg inputs k w,
    (steps w <= k < steps w + List.length inputs)%nat ->
    no_shutdown (trace w) = true ->
    (exists w1 w2,
       capture_loop cfg inputs (single_fault k KeyboardInterrupt) w
         = (Raise KeyboardInterrupt, w1) /\
       no_shutdown (trace w1) = true /\
       main cfg inputs (single_fault k KeyboardInterrupt) w = (Ok tt, w2) /\
       trace w2 = trace w1 ++
         ELogWarning "KeyboardInterrupt" ::
         (if CONNECT_REMOTE_SERVER cfg then [ESocketClose] else []) /\
       process_end (fst (main cfg inputs (single_fault k KeyboardInterrupt) w))
         = ExitCode 0) /\
    (forall name, exists w1,
       main cfg inputs (single_fault k (OtherError name)) w
         = (Raise (OtherError name), w1) /\
       no_shutdown (trace w1) = true /\
       process_end (fst (main cfg inputs (single_fault k (OtherError name)) w))
         = UnhandledException (OtherError name)).
Proof.
  intros cfg inputs k w Hk Ht. split.
  - destruct (capture_loop_interrupted k KeyboardInterrupt cfg inputs w Hk Ht)
      as [w1 [E1 [S1 T1]]].
    assert (Hm : exists w2,
      main cfg inputs (single_fault k KeyboardInterrupt) w = (Ok tt, w2) /\
      trace w2 = trace w1 ++
         ELogWarning "KeyboardInterrupt" ::
         (if CONNECT_REMOTE_SERVER cfg then [ESocketClose] else [])).
    { unfold main, try_except_KeyboardInterrupt. rewrite E1.
      unfold bind.
      rewrite perform_off_fault by (rewrite S1; lia).
      destruct (CONNECT_REMOTE_SERVER cfg); simpl when.
      - rewrite perform_off_fault by (simpl; rewrite S1; lia).
        eexists. split; [reflexivity |]. simpl.
        now rewrite <- app_assoc.
      - eexists. split; reflexivity. }
    destruct Hm as [w2 [E2 T2]].
    exists w1, w2. repeat split; trivial. now rewrite E2.
  - intros name.
    destruct (capture_loop_interrupted k (OtherError name) cfg inputs w Hk Ht)
      as [w1 [E1 [S1 T1]]].
    exists w1. unfold main, try_except_KeyboardInterrupt. rewrite E1.
    repeat split. exact T1.
Qed.

Lemma interrupt_is_handled_other_failures_are_not_witness :
  (exists w1 w2,
     capture_loop example_config (repeat example_input 9)
       (single_fault 8 KeyboardInterrupt) initial_world
       = (Raise KeyboardInterrupt, w1) /\
     no_shutdown (trace w1) = true /\
     main example_config (repeat example_input 9)
       (single_fault 8 KeyboardInterrupt) initial_world = (Ok tt, w2) /\
     trace w2 = trace w1 ++ [ELogWarning "KeyboardInterrupt"; ESocketClose] /\
     process_end
       (fst (main example_config (repeat example_input 9)
               (single_fault 8 KeyboardInterrupt) initial_world))
       = ExitCode 0) /\
  (forall name, exists w1,
     main example_config (repeat example_input 9)
       (single_fault 8 (OtherError name)) initial_world
       = (Raise (OtherError name), w1) /\
     no_shutdown (trace w1) = true /\
     process_end
       (fst (main example_config (repeat example_input 9)
               (single_fault 8 (OtherError name)) initial_world))
       = UnhandledException (OtherError name)).
Proof.
  apply (interrupt_is_handled_other_failures_are_not example_config
           (repeat example_input 9) 8 initial_world).
  - simpl. lia.
  - reflexivity.
Defined.

(* ===================================================================== *)
(** ** The specification's examples, run on the model *)
(* ===================================================================== *)

(** Deer at 0.8 and bird at 0.3, threshold 0.6, allow-list deer and fox. *)
Example run_deer_and_bird :
  decision_step example_config deer_and_bird example_now no_faults
    initial_world
  = (Ok tt,
     mk_world [ESendImageAndBoxes deer_and_bird;
               ESaveCurrentFrame deer_and_bird;
               ELoraSend "Top-1: deer";
               EOpen "what_was_seen.log" "a+";
               EWrite (seen_line "2021-06-15 07:04:59" "deer");
               EClose] 5 0).
Proof. reflexivity. Qed.

(** Bird at 0.9 alone: the sighting is logged, nothing is dispatched. *)
Example run_bird_only :
  decision_step example_config bird_only example_now no_faults initial_world
  = (Ok tt,
     mk_world [EOpen "what_was_seen.log" "a+";
               EWrite (seen_line "2021-06-15 07:04:59" "bird");
               EClose] 2 0).
Proof. reflexivity. Qed.

(** No detection: nothing happens. *)
Example run_no_detection :
  decision_step example_config [] example_now no_faults initial_world
  = (Ok tt, initial_world).
Proof. reflexivity. Qed.

(** An interrupt delivered at the write to the sighting log: the file is
    closed on the way out, then the handler runs. *)
Example run_interrupt_at_write :
  main example_config [example_input] (single_fault 8 KeyboardInterrupt)
    initial_world
  = (Ok tt,
     mk_world [ECapture; EHeartbeat; EInfer; EPrintReport;
               ESendImageAndBoxes deer_and_bird;
               ESaveCurrentFrame deer_and_bird;
               ELoraSend "Top-1: deer";
               EOpen "what_was_seen.log" "a+";
               EClose;
               ELogWarning "KeyboardInterrupt";
               ESocketClose] 11 20).
Proof. reflexivity. Qed.

(** The same fault with another exception: the file is closed, the handler
    does not run and the exception leaves [main]. *)
Example run_oserror_at_write :
  main example_config [example_input] (single_fault 8 (OtherError "OSError"))
    initial_world
  = (Raise (OtherError "OSError"),
     mk_world [ECapture; EHeartbeat; EInfer; EPrintReport;
               ESendImageAndBoxes deer_and_bird;
               ESaveCurrentFrame deer_and_bird;
               ELoraSend "Top-1: deer";
               EOpen "what_was_seen.log" "a+";
               EClose] 9 20).
Proof. reflexivity. Qed.

(* ===================================================================== *)
(** ** Properties that hold under every fault schedule *)
(* ===================================================================== *)

Section Extends.

Variable R : list event -> Prop.
Hypothesis R_nil : R [].
Hypothesis R_app : forall a b, R a -> R b -> R (a ++ b).

Lemma extends_ret : extends R (ret tt).
Proof.
  intros f w. exists []. simpl. now rewrite app_nil_r.
Qed.

Lemma extends_perform e : R [e] -> extends R (perform e).
Proof.
  intros He f w. unfold perform. destruct (f (steps w)); simpl.
  - exists []. now rewrite app_nil_r.
  - exists [e]. split; [reflexivity | exact He].
Qed.

Lemma extends_bind m n :
  extends R m -> extends R n -> extends R (m ;; n).
Proof.
  intros Hm Hn f w. unfold bind. destruct (Hm f w) as [es1 [T1 R1]].
  destruct (m f w) as [[[] | x] w1]; simpl in T1.
  - destruct (Hn f w1) as [es2 [T2 R2]]. exists (es1 ++ es2).
    rewrite T2, T1, app_assoc. split; [reflexivity | now apply R_app].
  - exists es1. split; assumption.
Qed.

Lemma extends_when b m :
  (b = true -> extends R m) -> extends R (when b m).
Proof.
  intros H. destruct b; simpl; [now apply H | apply extends_ret].
Qed.

Lemma extends_with_open path mode body :
  (forall es, R es -> R (EOpen path mode :: es ++ [EClose])) ->
  extends R body -> extends R (with_open path mode body).
Proof.
  intros Hoc Hb f w. unfold with_open, perform.
  destruct (f (steps w)); simpl.
  - exists []. now rewrite app_nil_r.
  - destruct (Hb f (record_event (EOpen path mode) (tick w)))
      as [es [T Res]].
    destruct (body f (record_event (EOpen path mode) (tick w))) as [r w2].
    simpl in *. exists (EOpen path mode :: es ++ [EClose]).
    split; [| now apply Hoc].
    rewrite T, <- !app_assoc. reflexivity.
Qed.

Lemma extends_heartbeat now :
  R [EHeartbeat] -> extends R (send_heartbeat_every_15s now).
Proof.
  intros He f w.
  unfold send_heartbeat_every_15s, bind, get_last_heartbeat, perform,
    set_last_heartbeat.
  destruct (Qle_bool 15 (now - last_heartbeat w)).
  - destruct (f (steps w)); simpl.
    + exists []. now rewrite app_nil_r.
    + exists [EHeartbeat]. split; [reflexivity | exact He].
  - exists []. simpl. now rewrite app_nil_r.
Qed.

Lemma extends_try body handler :
  extends R body -> extends R handler ->
  extends R (try_except_KeyboardInterrupt body handler).
Proof.
  intros Hb Hh f w. unfold try_except_KeyboardInterrupt.
  destruct (Hb f w) as [es1 [T1 R1]].
  destruct (body f w) as [[[] | [| name]] w1]; simpl in T1.
  - exists es1. split; assumption.
  - destruct (Hh f w1) as [es2 [T2 R2]]. exists (es1 ++ es2).
    rewrite T2, T1, app_assoc. split; [reflexivity | now apply R_app].
  - exists es1. split; assumption.
Qed.

End Extends.

Lemma extends_weaken (R S : list event -> Prop) m :
  (forall es, R es -> S es) -> extends R m -> extends S m.
Proof.
  intros H Hm f w. destruct (Hm f w) as [es [T Res]].
  exists es. split; [exact T | now apply H].
Qed.

(** *** Every call is justified by the configuration and a frame *)

Lemma Forall_app_intro (P : event -> Prop) a b :
  Forall P a -> Forall P b -> Forall P (a ++ b).
Proof. intros Ha Hb. apply Forall_app. now split. Qed.

Lemma extends_decision_step cfg inp :
  extends (Forall (cycle_allows cfg inp))
    (decision_step cfg (labeled_boxes inp) (wall_clock inp)).
Proof.
  pose proof (@Forall_nil event (cycle_allows cfg inp)) as Hnil.
  pose proof (Forall_app_intro (cycle_allows cfg inp)) as Happ.
  unfold decision_step.
  destruct (labeled_boxes inp) as [| top rest] eqn:Elb;
    [now apply extends_ret |].
  destruct (RECORD cfg && float_gt (confidence top) (RECORD_CONF_THRESHOLD cfg))
    eqn:Erec; [| now apply extends_ret].
  assert (Hrec : recording_condition cfg (labeled_boxes inp) = true)
    by (rewrite Elb; exact Erec).
  rewrite any_map_filter_match.
  apply extends_bind; trivial.
  - apply extends_when; trivial. intros Hf.
    assert (Hfm : filter_match cfg (labeled_boxes inp) = true)
      by (rewrite Elb; exact Hf).
    apply extends_bind; trivial.
    { apply extends_when; trivial. intros Hc. apply extends_perform; trivial.
      repeat constructor; simpl; auto. }
    apply extends_bind; trivial.
    { apply extends_perform; trivial. repeat constructor; simpl; auto. }
    apply extends_when; trivial. intros Hl. apply extends_perform; trivial.
    repeat constructor; simpl; auto. rewrite Elb. reflexivity.
  - apply extends_with_open; trivial.
    + intros es Hes. constructor; [simpl; auto |].
      apply Happ; [exact Hes | repeat constructor; exact Hrec].
    + apply extends_perform; trivial.
      repeat constructor; simpl; auto. rewrite Elb. reflexivity.
Qed.

Lemma extends_cycle cfg inp :
  extends (Forall (cycle_allows cfg inp)) (cycle cfg inp).
Proof.
  pose proof (@Forall_nil event (cycle_allows cfg inp)) as Hnil.
  pose proof (Forall_app_intro (cycle_allows cfg inp)) as Happ.
  unfold cycle. cbv zeta.
  apply extends_bind; trivial.
  { apply extends_perform; trivial. repeat constructor. }
  apply extends_bind; trivial.
  { apply extends_when; trivial. intros Hc. apply extends_heartbeat; trivial.
    repeat constructor. exact Hc. }
  apply extends_bind; trivial.
  { apply extends_perform; trivial. repeat constructor. }
  apply extends_bind; trivial.
  { apply extends_perform; trivial. repeat constructor. }
  apply extends_bind; trivial.
  { apply extends_when; trivial. intros Hh. apply extends_perform; trivial.
    repeat constructor. simpl. now apply negb_true_iff. }
  apply extends_bind; trivial.
  { apply extends_decision_step. }
  apply extends_bind; trivial; apply extends_perform; trivial;
    repeat constructor.
Qed.

Lemma extends_capture_loop cfg inputs :
  extends (Forall (loop_allows cfg inputs)) (capture_loop cfg inputs).
Proof.
  induction inputs as [| inp rest IH]; simpl.
  - apply extends_ret. constructor.
  - pose proof (Forall_app_intro (loop_allows cfg (inp :: rest))) as Happ.
    apply extends_bind; trivial.
    + apply (extends_weaken (Forall (cycle_allows cfg inp)));
        [| apply extends_cycle].
      intros es Hes. eapply Forall_impl; [| exact Hes].
      intros e He. exists inp. split; [now left | exact He].
    + apply (extends_weaken (Forall (loop_allows cfg rest))); [| exact IH].
      intros es Hes. eapply Forall_impl; [| exact Hes].
      intros e [i [Hi He]]. exists i. split; [now right | exact He].
Qed.

Lemma extends_main cfg inputs :
  extends (Forall (main_allows cfg inputs)) (main cfg inputs).
Proof.
  pose proof (@Forall_nil event (main_allows cfg inputs)) as Hnil.
  pose proof (Forall_app_intro (main_allows cfg inputs)) as Happ.
  unfold main. apply extends_try; trivial.
  - apply (extends_weaken (Forall (loop_allows cfg inputs)));
      [| apply extends_capture_loop].
    intros es Hes. eapply Forall_impl; [| exact Hes].
    intros e He. now left.
  - apply extends_bind; trivial.
    + apply extends_perform; trivial.
      constructor; [| constructor]. right. now left.
    + apply extends_when; trivial. intros Hc.
      apply extends_perform; trivial.
      constructor; [| constructor]. right. right. now split.
Qed.

(** X4.  Whatever the fault schedule, the frames and the starting world, the
    [try] statement only adds calls to the trace, and each call it adds is
    either one of the handler's two calls (the socket close only with a
    remote connection configured) or a call of the loop justified by one of
    the frames: a socket call only with a remote connection configured, a
    display update only when not headless, a radio message only with the
    radio on, a persisted or sent frame or a radio message only for a frame
    that passes both the recording test and the class filter, and a touch of
    the sighting log only for a frame that passes the recording test; and
    the arguments are those of that frame. *)
Theorem every_call_is_justified :
  forall cfg inputs f w,
  exists es,
    trace (snd (main cfg inputs f w)) = trace w ++ es /\
    Forall (main_allows cfg inputs) es.
Proof.
  intros cfg inputs f w. apply extends_main.
Qed.

Lemma float_gt_nan_r x y : is_nan y = true -> float_gt x y = false.
Proof.
  unfold float_gt. destruct y; try discriminate. intros _.
  destruct x; reflexivity.
Qed.

Lemma float_gt_nan_l x y : is_nan x = true -> float_gt x y = false.
Proof.
  unfold float_gt. destruct x; try discriminate. intros _.
  destruct y; reflexivity.
Qed.

Lemma recording_condition_needs cfg lboxes :
  recording_condition cfg lboxes = true ->
  RECORD cfg = true /\ is_nan (RECORD_CONF_THRESHOLD cfg) = false /\
  exists top rest, lboxes = top :: rest /\ is_nan (confidence top) = false.
Proof.
  destruct lboxes as [| top rest]; simpl; [discriminate |].
  intros H. apply andb_true_iff in H. destruct H as [Hr Hg].
  split; [exact Hr |]. split.
  - destruct (is_nan (RECORD_CONF_THRESHOLD cfg)) eqn:E; [| reflexivity].
    rewrite (float_gt_nan_r _ _ E) in Hg. discriminate.
  - exists top, rest. split; [reflexivity |].
    destruct (is_nan (confidence top)) eqn:E; [| reflexivity].
    rewrite (float_gt_nan_l _ _ E) in Hg. discriminate.
Qed.

(** A recording call allowed by [main_allows] comes with a frame that passes
    the recording test. *)
Lemma recording_call_has_frame cfg inputs e :
  main_allows cfg inputs e ->
  observable e || is_file_event e = true ->
  exists inp,
    In inp inputs /\ recording_condition cfg (labeled_boxes inp) = true.
Proof.
  intros [[inp [Hin He]] | [-> | [-> _]]] Ho; try discriminate.
  exists inp. split; [exact Hin |].
  destruct e; simpl in He, Ho; try discriminate; tauto.
Qed.

(** A dispatching call allowed by [main_allows] comes with a frame that
    also passes the class filter. *)
Lemma dispatch_call_has_frame cfg inputs e :
  main_allows cfg inputs e ->
  is_persist e || is_network_send e || is_radio_send e = true ->
  exists inp,
    In inp inputs /\ recording_condition cfg (labeled_boxes inp) = true /\
    filter_match cfg (labeled_boxes inp) = true.
Proof.
  intros [[inp [Hin He]] | [-> | [-> _]]] Ho; try discriminate.
  exists inp. split; [exact Hin |].
  destruct e; simpl in He, Ho; try discriminate; tauto.
Qed.

Lemma existsb_false_of_Forall (P : event -> Prop) (p : event -> bool) es :
  Forall P es -> (forall e, P e -> p e = true -> False) ->
  existsb p es = false.
Proof.
  intros HF Hno. induction HF as [| e es He _ IH]; simpl; [reflexivity |].
  rewrite IH, orb_false_r. destruct (p e) eqn:E; [| reflexivity].
  exfalso. now apply (Hno e).
Qed.

(** X5.  With [RECORD] false, or with a NaN as [RECORD_CONF_THRESHOLD], the
    program never records anything: whatever the frames and the faults, no
    line is written to the sighting log, the log file is not even opened, and
    no frame is persisted, sent or announced by radio. *)
Theorem recording_disabled_records_nothing :
  forall cfg inputs f w,
    RECORD cfg = false \/ is_nan (RECORD_CONF_THRESHOLD cfg) = true ->
    exists es,
      trace (snd (main cfg inputs f w)) = trace w ++ es /\
      existsb observable es = false /\
      existsb is_file_event es = false.
Proof.
  intros cfg inputs f w Hoff.
  destruct (extends_main cfg inputs f w) as [es [T HF]].
  exists es. split; [exact T |].
  assert (Hno : forall e, main_allows cfg inputs e ->
                  observable e || is_file_event e = true -> False).
  { intros e He Ho.
    destruct (recording_call_has_frame cfg inputs e He Ho) as [inp [_ Hr]].
    apply recording_condition_needs in Hr. destruct Hr as [Hr [Hn _]].
    destruct Hoff; congruence. }
  split; apply (existsb_false_of_Forall _ _ _ HF); intros e He Hp;
    apply (Hno e He); rewrite Hp; [reflexivity | apply orb_true_r].
Qed.

Lemma recording_disabled_records_nothing_witness :
  exists es,
    trace (snd (main (mk_config true S754_nan ["deer"; "fox"] true true true)
                  [example_input; late_input]
                  (single_fault 9 KeyboardInterrupt) initial_world))
      = trace initial_world ++ es /\
    existsb observable es = false /\
    existsb is_file_event es = false.
Proof.
  apply (recording_disabled_records_nothing
           (mk_config true S754_nan ["deer"; "fox"] true true true)
           [example_input; late_input]
           (single_fault 9 KeyboardInterrupt) initial_world).
  right. reflexivity.
Defined.

Lemma filter_match_empty cfg lboxes :
  FILTER_CLASSES cfg = [] -> filter_match cfg lboxes = false.
Proof.
  intros H. unfold filter_match. rewrite H.
  induction lboxes as [| d rest IH]; simpl; [reflexivity | exact IH].
Qed.

(** X6.  With an empty [FILTER_CLASSES] the program never dispatches:
    whatever the frames and the faults, no frame is persisted or sent to the
    server and no radio message is sent. *)
Theorem empty_filter_never_dispatches :
  forall cfg inputs f w,
    FILTER_CLASSES cfg = [] ->
    exists es,
      trace (snd (main cfg inputs f w)) = trace w ++ es /\
      existsb is_persist es = false /\
      existsb is_network_send es = false /\
      existsb is_radio_send es = false.
Proof.
  intros cfg inputs f w Hempty.
  destruct (extends_main cfg inputs f w) as [es [T HF]].
  exists es. split; [exact T |].
  assert (Hno : forall e, main_allows cfg inputs e ->
                  is_persist e || is_network_send e || is_radio_send e = true ->
                  False).
  { intros e He Ho.
    destruct (dispatch_call_has_frame cfg inputs e He Ho) as [inp [_ [_ Hf]]].
    rewrite filter_match_empty in Hf by exact Hempty. discriminate. }
  repeat split; apply (existsb_false_of_Forall _ _ _ HF); intros e He Hp;
    apply (Hno e He); rewrite Hp; simpl; rewrite ?orb_true_r; reflexivity.
Qed.

Lemma empty_filter_never_dispatches_witness :
  exists es,
    trace (snd (main (mk_config true conf_0_6 [] false true true)
                  [example_input; late_input] no_faults initial_world))
      = trace initial_world ++ es /\
    existsb is_persist es = false /\
    existsb is_network_send es = false /\
    existsb is_radio_send es = false.
Proof.
  apply (empty_filter_never_dispatches
           (mk_config true conf_0_6 [] false true true)
           [example_input; late_input] no_faults initial_world).
  reflexivity.
Defined.

(** *** The sighting log is never left open *)

Lemma open_files_app a b : open_files (a ++ b) = (open_files a + open_files b)%Z.
Proof.
  induction a as [| e a IH]; [reflexivity |].
  destruct e; cbn [app open_files]; rewrite IH; lia.
Qed.

Lemma balanced_app a b :
  open_files a = 0%Z -> open_files b = 0%Z -> open_files (a ++ b) = 0%Z.
Proof. intros Ha Hb. rewrite open_files_app. lia. Qed.

Ltac balanced_steps :=
  repeat first
    [ apply extends_bind; [exact balanced_app | |]
    | apply extends_when; [reflexivity | intros _]
    | apply extends_heartbeat; reflexivity
    | apply extends_perform; reflexivity
    | apply extends_ret; reflexivity ].

Lemma balanced_decision_step cfg lboxes now :
  extends (fun es => open_files es = 0%Z) (decision_step cfg lboxes now).
Proof.
  unfold decision_step. destruct lboxes as [| top rest]; [balanced_steps |].
  destruct (RECORD cfg && float_gt (confidence top) (RECORD_CONF_THRESHOLD cfg));
    [| balanced_steps].
  apply extends_bind; [exact balanced_app | balanced_steps |].
  apply extends_with_open; [reflexivity | | balanced_steps].
  intros es Hes. cbn [open_files]. rewrite open_files_app, Hes. reflexivity.
Qed.

Lemma balanced_capture_loop cfg inputs :
  extends (fun es => open_files es = 0%Z) (capture_loop cfg inputs).
Proof.
  induction inputs as [| inp rest IH]; simpl; [balanced_steps |].
  apply extends_bind; [exact balanced_app | | exact IH].
  unfold cycle. cbv zeta.
  do 5 (apply extends_bind; [exact balanced_app | balanced_steps |]).
  apply extends_bind; [exact balanced_app | apply balanced_decision_step |].
  balanced_steps.
Qed.

(** X7.  Whatever the fault schedule, the [try] statement leaves as many
    files open as it found: every [open] of the sighting log that succeeds
    is matched by a close, also when the write, or the interrupt handler,
    fails. *)
Theorem log_file_never_left_open :
  forall cfg inputs f w,
    open_files (trace (snd (main cfg inputs f w))) = open_files (trace w).
Proof.
  intros cfg inputs f w.
  assert (H : extends (fun es => open_files es = 0%Z) (main cfg inputs)).
  { unfold main. apply extends_try; [exact balanced_app | |].
    - apply balanced_capture_loop.
    - balanced_steps. }
  destruct (H f w) as [es [T Hes]]. rewrite T, open_files_app. lia.
Qed.

(* ===================================================================== *)
(** ** What a whole run leaves behind *)
(* ===================================================================== *)

Lemma append_empty_r (s : string) : (s ++ EmptyString)%string = s.
Proof.
  induction s as [| c s IH]; simpl; [reflexivity | now rewrite IH].
Qed.

Lemma append_assoc_string (a b c : string) :
  ((a ++ b) ++ c)%string = (a ++ (b ++ c))%string.
Proof.
  induction a as [| ch a IH]; simpl; [reflexivity | now rewrite IH].
Qed.

Lemma log_contents_app contents a b :
  log_contents contents (a ++ b) = log_contents (log_contents contents a) b.
Proof.
  revert contents. induction a as [| e a IH]; intros contents;
    [reflexivity |].
  destruct e; cbn [app log_contents]; apply IH.
Qed.

Lemma log_contents_no_write contents es :
  existsb is_log_line es = false -> log_contents contents es = contents.
Proof.
  revert contents. induction es as [| e es IH]; intros contents H;
    [reflexivity |].
  simpl in H. apply orb_false_iff in H. destruct H as [He Hes].
  destruct e; try discriminate; cbn [log_contents]; now apply IH.
Qed.

Lemma log_contents_decision cfg inp contents :
  log_contents contents
    (decision_events cfg (labeled_boxes inp) (wall_clock inp))
  = (contents ++ cycle_line cfg inp)%string.
Proof.
  unfold decision_events, cycle_line, dispatch_events, log_events.
  destruct (recording_condition cfg (labeled_boxes inp));
    [| now rewrite append_empty_r].
  destruct (filter_match cfg (labeled_boxes inp)),
    (CONNECT_REMOTE_SERVER cfg), (LORA_ON cfg); reflexivity.
Qed.

Lemma log_contents_cycle cfg inp last contents :
  log_contents contents
    (ECapture ::
     heartbeat_events cfg last (heartbeat_clock inp) ++
     inference_events cfg inp ++
     decision_events cfg (labeled_boxes inp) (wall_clock inp) ++
     [EStreamSeek; EStreamTruncate])
  = (contents ++ cycle_line cfg inp)%string.
Proof.
  cbn [log_contents]. rewrite !log_contents_app.
  rewrite (log_contents_no_write contents (heartbeat_events _ _ _)).
  - rewrite (log_contents_no_write contents (inference_events _ _)).
    + rewrite log_contents_decision. reflexivity.
    + unfold inference_events. destruct (HEADLESS cfg); reflexivity.
  - unfold heartbeat_events.
    destruct (CONNECT_REMOTE_SERVER cfg && heartbeat_due last (heartbeat_clock inp));
      reflexivity.
Qed.

(** X8.  After a run of the loop without faults, the sighting log holds what
    it held before followed by one line for each frame that passed the
    recording test, in the order in which the frames were captured, and
    nothing for the other frames. *)
Theorem sighting_log_after_run :
  forall cfg inputs w contents,
  exists w' es,
    capture_loop cfg inputs no_faults w = (Ok tt, w') /\
    trace w' = trace w ++ es /\
    log_contents contents es =
      (contents ++ join (map (cycle_line cfg) inputs))%string.
Proof.
  intros cfg inputs. induction inputs as [| inp rest IH]; intros w contents.
  - exists w, []. simpl. rewrite app_nil_r, append_empty_r. repeat split.
  - destruct (cycle_trace cfg inp w) as [w1 [E1 [T1 _]]].
    destruct (IH w1 (contents ++ cycle_line cfg inp)%string)
      as [w2 [es [E2 [T2 L2]]]].
    simpl. unfold bind. rewrite E1. eexists; eexists.
    split; [exact E2 |].
    split; [rewrite T2, T1, <- app_assoc; reflexivity |].
    rewrite log_contents_app, log_contents_cycle, L2.
    apply append_assoc_string.
Qed.

Lemma filter_cycle_events (p : event -> bool) cfg inp last :
  filter p
    (ECapture ::
     heartbeat_events cfg last (heartbeat_clock inp) ++
     inference_events cfg inp ++
     decision_events cfg (labeled_boxes inp) (wall_clock inp) ++
     [EStreamSeek; EStreamTruncate])
  = filter p [ECapture] ++
    filter p (heartbeat_events cfg last (heartbeat_clock inp)) ++
    filter p (inference_events cfg inp) ++
    filter p (decision_events cfg (labeled_boxes inp) (wall_clock inp)) ++
    filter p [EStreamSeek; EStreamTruncate].
Proof.
  rewrite <- !filter_app. reflexivity.
Qed.

Lemma filter_decision_events_nil (p : event -> bool) cfg lboxes now :
  (forall e, observable e || is_file_event e = true -> p e = false) ->
  filter p (decision_events cfg lboxes now) = [].
Proof.
  intros Hp. unfold decision_events, dispatch_events, log_events.
  destruct (recording_condition cfg lboxes); [| reflexivity].
  destruct (filter_match cfg lboxes), (CONNECT_REMOTE_SERVER cfg),
    (LORA_ON cfg); simpl; rewrite ?Hp; reflexivity.
Qed.

(** X9.  In a run of the loop without faults every frame is handled once:
    one capture and one inference per frame, and, unless the device is
    headless, one display update per frame, carrying that frame's
    detections, in the order of capture and whatever the recording decision
    for the frame. *)
Theorem every_frame_is_inferred_and_displayed :
  forall cfg inputs w,
  exists w' es,
    capture_loop cfg inputs no_faults w = (Ok tt, w') /\
    trace w' = trace w ++ es /\
    List.length (filter is_capture es) = List.length inputs /\
    List.length (filter is_inference es) = List.length inputs /\
    filter is_display_update es =
      (if HEADLESS cfg then []
       else map (fun inp => EDisplayUpdate (labeled_boxes inp)) inputs).
Proof.
  intros cfg inputs. induction inputs as [| inp rest IH]; intros w.
  - exists w, []. simpl. rewrite app_nil_r.
    repeat split. now destruct (HEADLESS cfg).
  - destruct (cycle_trace cfg inp w) as [w1 [E1 [T1 _]]].
    destruct (IH w1) as [w2 [es [E2 [T2 [C2 [I2 D2]]]]]].
    simpl capture_loop. unfold bind. rewrite E1. eexists; eexists.
    split; [exact E2 |].
    split; [rewrite T2, T1, <- app_assoc; reflexivity |].
    rewrite !filter_app, !filter_cycle_events.
    rewrite !filter_decision_events_nil
      by (intros e He; destruct e; simpl in *; reflexivity || discriminate).
    unfold heartbeat_events, inference_events.
    rewrite !length_app, C2, I2, D2.
    destruct (CONNECT_REMOTE_SERVER cfg &&
              heartbeat_due (last_heartbeat w) (heartbeat_clock inp)),
      (HEADLESS cfg); simpl; repeat split; reflexivity.
Qed.

(* ===================================================================== *)
(** ** A failure while dispatching *)
(* ===================================================================== *)

Lemma perform_at_fault e k x w :
  steps w = k -> perform e (single_fault k x) w = (Raise x, tick w).
Proof.
  intros H. unfold perform, single_fault.
  now destruct (Nat.eqb_spec (steps w) k).
Qed.

Ltac run_to_fault :=
  unfold bind, ret; cbv beta iota;
  repeat (rewrite perform_off_fault by (simpl; lia); cbv beta iota);
  rewrite perform_at_fault by (simpl; lia); cbv beta iota.

(** X10.  In a cycle that records and dispatches, an exception raised by
    one of the dispatching calls (the send to the server, the persisting of
    the frame, the radio message) ends the decision step at once: the
    dispatching calls before the failing one have been made, the sighting
    log is neither opened nor written, and the exception goes on to the
    caller. *)
Theorem failed_dispatch_skips_log :
  forall cfg top rest now w k x,
    RECORD cfg = true ->
    float_gt (confidence top) (RECORD_CONF_THRESHOLD cfg) = true ->
    filter_match cfg (top :: rest) = true ->
    (steps w <= k < steps w +
                    List.length (dispatch_events cfg (top :: rest)))%nat ->
    exists w' es,
      decision_step cfg (top :: rest) now (single_fault k x) w = (Raise x, w') /\
      trace w' = trace w ++ es /\
      es = firstn (k - steps w) (dispatch_events cfg (top :: rest)) /\
      existsb is_file_event es = false.
Proof.
  intros cfg top rest now w k x Hrec Hgt Hf Hk.
  unfold decision_step. rewrite Hrec, Hgt. cbn [andb].
  rewrite any_map_filter_match, Hf.
  unfold dispatch_events in *.
  destruct (CONNECT_REMOTE_SERVER cfg), (LORA_ON cfg);
    cbn [when List.length app] in *.
  - assert (Hj : k = steps w \/ k = S (steps w) \/ k = S (S (steps w)))
      by lia.
    destruct Hj as [-> | [-> | ->]].
    + run_to_fault. eexists; eexists. split; [reflexivity |].
      rewrite Nat.sub_diag. simpl. rewrite app_nil_r. repeat split.
    + run_to_fault. eexists; eexists. split; [reflexivity |].
      replace (S (steps w) - steps w)%nat with 1%nat by lia.
      simpl. repeat split.
    + run_to_fault. eexists; eexists. split; [reflexivity |].
      replace (S (S (steps w)) - steps w)%nat with 2%nat by lia.
      simpl. rewrite <- app_assoc. repeat split.
  - assert (Hj : k = steps w \/ k = S (steps w)) by lia.
    destruct Hj as [-> | ->].
    + run_to_fault. eexists; eexists. split; [reflexivity |].
      rewrite Nat.sub_diag. simpl. rewrite app_nil_r. repeat split.
    + run_to_fault. eexists; eexists. split; [reflexivity |].
      replace (S (steps w) - steps w)%nat with 1%nat by lia.
      simpl. repeat split.
  - assert (Hj : k = steps w \/ k = S (steps w)) by lia.
    destruct Hj as [-> | ->].
    + run_to_fault. eexists; eexists. split; [reflexivity |].
      rewrite Nat.sub_diag. simpl. rewrite app_nil_r. repeat split.
    + run_to_fault. eexists; eexists. split; [reflexivity |].
      replace (S (steps w) - steps w)%nat with 1%nat by lia.
      simpl. repeat split.
  - assert (Hj : k = steps w) by lia. subst k.
    run_to_fault. eexists; eexists. split; [reflexivity |].
    rewrite Nat.sub_diag. simpl. rewrite app_nil_r. repeat split.
Qed.

Lemma failed_dispatch_skips_log_witness :
  exists w' es,
    decision_step example_config deer_and_bird example_now
      (single_fault 2 (OtherError "RadioError")) initial_world
      = (Raise (OtherError "RadioError"), w') /\
    trace w' = trace initial_world ++ es /\
    es = [ESendImageAndBoxes deer_and_bird; ESaveCurrentFrame deer_and_bird] /\
    existsb is_file_event es = false.
Proof.
  apply (failed_dispatch_skips_log example_config (mk_lbox "deer" conf_0_8)
           [mk_lbox "bird" conf_0_3] example_now initial_world 2
           (OtherError "RadioError"));
    try reflexivity.
  simpl. lia.
Defined.

(* ===================================================================== *)
(** ** Loading the configuration *)
(* ===================================================================== *)

(** X1.  Every one of the eight keys is required and none has a default.
    If [configs] lacks some of them, loading stops with a [KeyError] naming
    the first missing key in the order in which the module reads them.
    Otherwise loading succeeds and each constant is the value [configs]
    holds for its key; other keys of [configs] play no part. *)
Theorem load_constants_requires_every_key :
  forall configs,
    match first_missing configs required_keys with
    | Some key => load_constants configs = KeyError key
    | None =>
        exists c,
          load_constants configs = Loaded c /\
          configs "RECORD" = Some (const_RECORD c) /\
          configs "RECORD_CONF_THRESHOLD" = Some (const_RECORD_CONF_THRESHOLD c) /\
          configs "CAMERA_RESOLUTION" = Some (const_CAMERA_RESOLUTION c) /\
          configs "CAMERA_ROTATION" = Some (const_CAMERA_ROTATION c) /\
          configs "FILTER_CLASSES" = Some (const_FILTER_CLASSES c) /\
          configs "HEADLESS" = Some (const_HEADLESS c) /\
          configs "CONNECT_REMOTE_SERVER" = Some (const_CONNECT_REMOTE_SERVER c) /\
          configs "LORA_ON" = Some (const_LORA_ON c)
    end.
Proof.
  intros configs.
  unfold load_constants, getitem, first_missing, required_keys, load_bind.
  destruct (configs "RECORD"); [| reflexivity].
  destruct (configs "RECORD_CONF_THRESHOLD"); [| reflexivity].
  destruct (configs "CAMERA_RESOLUTION"); [| reflexivity].
  destruct (configs "CAMERA_ROTATION"); [| reflexivity].
  destruct (configs "FILTER_CLASSES"); [| reflexivity].
  destruct (configs "HEADLESS"); [| reflexivity].
  destruct (configs "CONNECT_REMOTE_SERVER"); [| reflexivity].
  destruct (configs "LORA_ON"); [| reflexivity].
  eexists. repeat split.
Qed.

(** The example dictionary loads; without its [HEADLESS] and [LORA_ON]
    items the error names [HEADLESS]. *)
Example load_example :
  load_constants (dict_of_items example_items)
  = Loaded (mk_constants (PyBool true) (PyFloat conf_0_6)
              (PyList [PyInt 1280; PyInt 720]) (PyInt 0)
              (PyList [PyStr "deer"; PyStr "fox"])
              (PyBool true) (PyBool true) (PyBool true)) /\
  load_constants (dict_of_items (firstn 5 example_items))
  = KeyError "HEADLESS".
Proof. split; reflexivity. Qed.

(* ===================================================================== *)
(** ** Set-up and the whole of [main] *)
(* ===================================================================== *)

Lemma main_setup_is_calls st f sw :
  main_setup st f sw = setup_calls (setup_sequence st) f sw.
Proof.
  unfold main_setup, setup_sequence.
  destruct (LORA_ON (loop_config st)), (CONNECT_REMOTE_SERVER (loop_config st)),
    (HEADLESS (loop_config st));
    cbn [negb app setup_calls]; unfold setup_bind, setup_call, setup_ret;
    repeat (match goal with
            | |- context [match ?g ?n with Some _ => _ | None => _ end] =>
                destruct (g n)
            end; cbn [setup_steps setup_trace]; try reflexivity).
Qed.

Lemma setup_calls_single_fault calls :
  forall sw k x,
    (setup_steps sw <= k < setup_steps sw + List.length calls)%nat ->
    setup_calls calls (single_fault k x) sw
    = (Raise x,
       mk_setup_world (setup_trace sw ++ firstn (k - setup_steps sw) calls)
                      (S k)).
Proof.
  induction calls as [| e rest IH]; intros sw k x Hk; simpl in Hk; [lia |].
  cbn [setup_calls]. unfold setup_bind, setup_call, single_fault.
  destruct (Nat.eqb_spec (setup_steps sw) k) as [Heq | Hne].
  - subst k. rewrite Nat.sub_diag. simpl. now rewrite app_nil_r.
  - fold (single_fault k x). rewrite IH by (simpl; lia). simpl.
    replace (k - setup_steps sw)%nat with (S (k - S (setup_steps sw)))%nat
      by lia.
    simpl. now rewrite <- app_assoc.
Qed.

Lemma setup_calls_ok calls :
  forall f sw sw',
    setup_calls calls f sw = (Ok tt, sw') ->
    setup_trace sw' = setup_trace sw ++ calls.
Proof.
  induction calls as [| e rest IH]; intros f sw sw' H.
  - inversion H. now rewrite app_nil_r.
  - cbn [setup_calls] in H. unfold setup_bind, setup_call in H.
    destruct (f (setup_steps sw)); [discriminate |].
    apply IH in H. simpl in H. now rewrite <- app_assoc in H.
Qed.

Lemma setup_calls_no_faults calls :
  forall sw,
    setup_calls calls no_faults sw
    = (Ok tt, mk_setup_world (setup_trace sw ++ calls)
                (setup_steps sw + List.length calls)).
Proof.
  induction calls as [| e rest IH]; intros [tr n]; simpl.
  - unfold setup_ret. now rewrite app_nil_r, Nat.add_0_r.
  - unfold setup_bind, setup_call, no_faults. simpl. rewrite IH. simpl.
    now rewrite <- app_assoc, Nat.add_succ_r.
Qed.

(** X2.  The [try] statement starts only after the set-up.  An exception
    raised by any set-up call, a [KeyboardInterrupt] like any other, leaves
    [main] unhandled: the set-up calls before it have been made, the loop is
    never entered, no warning is logged and the socket is not closed, even
    when the socket handler had already been created.  Without faults the
    set-up makes all its calls. *)
Theorem setup_failure_is_not_handled :
  forall st hb0 inputs k x,
    (k < List.length (setup_sequence st))%nat ->
    main_with_setup st hb0 inputs (single_fault k x)
      = mk_run (Raise x) (firstn k (setup_sequence st)) [] /\
    setup_calls_made (main_with_setup st hb0 inputs no_faults)
      = setup_sequence st.
Proof.
  intros st hb0 inputs k x Hk. unfold main_with_setup. split.
  - rewrite main_setup_is_calls.
    rewrite setup_calls_single_fault by (cbn [setup_steps]; lia).
    cbn [setup_steps setup_trace app]. now rewrite Nat.sub_0_r.
  - rewrite main_setup_is_calls, setup_calls_no_faults.
    destruct (main (loop_config st) inputs no_faults _) as [r w].
    reflexivity.
Qed.

Lemma setup_failure_is_not_handled_witness :
  main_with_setup example_settings 0 [example_input]
    (single_fault 8 KeyboardInterrupt)
    = mk_run (Raise KeyboardInterrupt)
        [ELoRaSenderInit; EDetectorInit; EStreamInit; ECameraInit;
         ESetRotation (PyInt 0);
         ESetResolution (PyList [PyInt 1280; PyInt 720]);
         ELogInfo "Connecting to server enabled"; ESocketHandlerInit] [] /\
  setup_calls_made (main_with_setup example_settings 0 [example_input] no_faults)
    = setup_sequence example_settings.
Proof.
  apply (setup_failure_is_not_handled example_settings 0 [example_input] 8
           KeyboardInterrupt).
  simpl. lia.
Defined.

(** X3.  Whatever the fault schedule, the loop and the handler only use a
    collaborator that the set-up has created: a radio message is sent only
    after [LoRaSender()], a socket call (heartbeat, image send, close) is
    made only after [ClientSocketHandler(configs)] and the sending of the
    host configuration with [FILTER_CLASSES] and the continue flag, a
    display update only after [Display(...)], and any call of the loop at
    all only after the detector and the camera have been created. *)
Theorem collaborators_are_created_before_use :
  forall st hb0 inputs f,
    let r := main_with_setup st hb0 inputs f in
    (forall to_send,
       In (ELoraSend to_send) (loop_calls_made r) ->
       In ELoRaSenderInit (setup_calls_made r)) /\
    (forall e,
       In e (loop_calls_made r) -> is_socket_call e = true ->
       In ESocketHandlerInit (setup_calls_made r) /\
       In (ESendHostConfigs (FILTER_CLASSES (loop_config st)) (CONTINUE_RUN st))
          (setup_calls_made r)) /\
    (forall lboxes,
       In (EDisplayUpdate lboxes) (loop_calls_made r) ->
       In EDisplayInit (setup_calls_made r)) /\
    (forall e,
       In e (loop_calls_made r) ->
       In EDetectorInit (setup_calls_made r) /\
       In ECameraInit (setup_calls_made r)).
Proof.
  intros st hb0 inputs f. unfold main_with_setup.
  rewrite main_setup_is_calls.
  destruct (setup_calls (setup_sequence st) f (mk_setup_world [] 0))
    as [[[] | x] sw] eqn:Es.
  2: { simpl. repeat split; intros; contradiction. }
  apply setup_calls_ok in Es. simpl in Es.
  destruct (extends_main (loop_config st) inputs f
              (mk_world [] (setup_steps sw) hb0)) as [es [T HF]].
  destruct (main (loop_config st) inputs f (mk_world [] (setup_steps sw) hb0))
    as [r w].
  simpl in T. subst es. cbn [loop_calls_made setup_calls_made run_result].
  rewrite Es. rewrite Forall_forall in HF.
  unfold setup_sequence.
  repeat split.
  - intros to_send Hin. apply HF in Hin.
    destruct Hin as [[inp [_ He]] | [He | [He _]]]; try discriminate.
    simpl in He. destruct He as [Hl _]. rewrite Hl. now left.
  - apply HF in H.
    assert (Hc : CONNECT_REMOTE_SERVER (loop_config st) = true).
    { destruct H as [[inp [_ He]] | [He | [He Hc]]]; subst; try discriminate;
        trivial.
      destruct e; simpl in He, H0; try discriminate; tauto. }
    rewrite Hc. simpl. tauto.
  - apply HF in H.
    assert (Hc : CONNECT_REMOTE_SERVER (loop_config st) = true).
    { destruct H as [[inp [_ He]] | [He | [He Hc]]]; subst; try discriminate;
        trivial.
      destruct e; simpl in He, H0; try discriminate; tauto. }
    rewrite Hc. simpl. tauto.
  - intros lboxes Hin. apply HF in Hin.
    destruct Hin as [[inp [_ He]] | [He | [He _]]]; try discriminate.
    simpl in He. destruct He as [Hh _]. rewrite Hh.
    apply in_or_app. right. apply in_or_app. right. simpl. tauto.
  - simpl. tauto.
  - simpl. tauto.
Qed.
